(** * A shallow embedding of [src/Request.js] (react-requests)

    The file models the [Request] component: the configuration extractor
    [getConfig], the change detection of [componentDidUpdate] (through
    [JSON.stringify]), the [fire] operation with its promise handlers, the
    response interceptor [cacheResponseInterceptor] and the cache lookup
    [getCachedResponse].

    Modelling conventions.
    - JavaScript values that reach [JSON.stringify] are the trees of [JsVal];
      an object is an association list in property order, because
      [JSON.stringify] prints properties in that order.  Numbers are the
      integers (timeouts and HTTP status codes); strings are sequences of
      8-bit code units.
    - [this.state] is threaded explicitly; every observable effect
      ([setState], a user callback, [axios.request], [store.dispatch]) is
      appended to a list of [Event]s in program order.
    - A JavaScript exception is the [Throw] completion.
    - [setState] is applied at once and its callback runs right after it;
      user callbacks are opaque handlers that return normally.  React may
      instead batch a [setState] made inside a lifecycle hook and run its
      callback when the hook has returned; the callback then still follows
      its own [setState] and precedes the settlement of the transport call.
      The one callback that is followed by another effect of the same method
      is [onStart]: no property below states whether it comes before or
      after the call of the transport.
    - The props follow their [propTypes]: [tag] is a string or [undefined],
      [cache] a number or [undefined], [defer] a boolean; the ten fields
      handed to the transport are arbitrary values.
    - The transport and the store are external: the settlement of
      [axios.request] is a parameter ([Outcome]), the store is read through
      [getState] and written only by an action handed to [dispatch].

    Part I holds the definitions: the model of the source, then the
    observations and the statements the properties are about.  Part II holds
    the lemmas and the theorems, one section for each claim C1 to C10.
    Part III holds further properties of the component: of the response
    interceptor, the settlement of the transport call, the cache lookup, the
    configuration that is sent, the lifecycle hooks and [render]. *)

From Stdlib Require Import ZArith Lia Ascii String.
From stdpp Require Import base option list strings pretty gmap.

Local Open Scope Z_scope.
Set Warnings "-register-all".

(** * Part I: the model *)

(** ** JavaScript values *)

Inductive JsVal : Type :=
  | VUndefined
  | VNull
  | VBool (b : bool)
  | VNum (n : Z)
  | VStr (s : string)
  | VArr (items : list JsVal)
  | VObj (fields : list (string * JsVal))
  | VFun (id : nat).

(** ** [JSON.stringify] *)

Definition hex_digit (n : N) : ascii :=
  match n with
  | 0%N => "0" | 1%N => "1" | 2%N => "2" | 3%N => "3" | 4%N => "4"
  | 5%N => "5" | 6%N => "6" | 7%N => "7" | 8%N => "8" | 9%N => "9"
  | 10%N => "a" | 11%N => "b" | 12%N => "c" | 13%N => "d" | 14%N => "e"
  | _ => "f"
  end%char.

(** The code units 0x22 (double quote) and 0x5C (backslash). *)
Definition dquote : ascii := "034"%char.
Definition backslash : ascii := "092"%char.

(** One code unit of [QuoteJSONString]. *)
Definition quote_char (c : ascii) : string :=
  let n := N_of_ascii c in
  if (n =? 34)%N then String backslash (String dquote EmptyString)
  else if (n =? 92)%N then String backslash (String backslash EmptyString)
  else if (n =? 8)%N then String backslash (String "b" EmptyString)
  else if (n =? 12)%N then String backslash (String "f" EmptyString)
  else if (n =? 10)%N then String backslash (String "n" EmptyString)
  else if (n =? 13)%N then String backslash (String "r" EmptyString)
  else if (n =? 9)%N then String backslash (String "t" EmptyString)
  else if (n <? 32)%N then
    String backslash (String "u" (String "0" (String "0"
      (String (hex_digit (n / 16)) (String (hex_digit (n mod 16)) EmptyString)))))
  else String c EmptyString.

Fixpoint quote_body (s : string) : string :=
  match s with
  | EmptyString => EmptyString
  | String c s' => quote_char c +:+ quote_body s'
  end.

Definition quote (s : string) : string :=
  String dquote (quote_body s +:+ String dquote EmptyString).

Fixpoint join (sep : string) (l : list string) : string :=
  match l with
  | [] => EmptyString
  | [x] => x
  | x :: l' => x +:+ sep +:+ join sep l'
  end.

(** [JSON.stringify v]: [None] is the result [undefined].  A property whose
    value serialises to [undefined] is left out of an object; such an element
    of an array is printed as [null]. *)
Fixpoint JSON_stringify (v : JsVal) : option string :=
  match v with
  | VUndefined => None
  | VFun _ => None
  | VNull => Some "null"%string
  | VBool true => Some "true"%string
  | VBool false => Some "false"%string
  | VNum n => Some (pretty n)
  | VStr s => Some (quote s)
  | VArr items =>
      Some ("[" +:+
            join "," (map (fun x => default "null"%string (JSON_stringify x)) items)
            +:+ "]")%string
  | VObj fields =>
      Some ("{" +:+
            join "," (omap (fun kv =>
                         match JSON_stringify (snd kv) with
                         | Some s => Some (quote (fst kv) +:+ ":" +:+ s)
                         | None => None
                         end) fields)
            +:+ "}")%string
  end.

(** ** Data of the component *)

(** Modelled from the spec: the module [./States] imported as [STATE] is not
    among the sources; the spec gives its five constants. *)
Inductive Status : Type := INIT | START | SUCCESS | FAILURE | ERROR.

(** A response as the transport delivers it: [response.data],
    [response.status] and [response.config.method]. *)
Record TransportResponse : Type := {
  r_data : JsVal;
  r_status : Z;
  r_method : string
}.

(** The object [{data, status}] that is written to and read from the store. *)
Record CachedResponse : Type := {
  c_data : JsVal;
  c_status : Z
}.

(** What [state.response] may hold. *)
Inductive ResponseVal : Type :=
  | RespNull
  | RespTransport (r : TransportResponse)
  | RespCached (c : CachedResponse).

(** Thrown values.  [Fault] is a rejection reason of the transport;
    [TypeError] is raised by the engine; [InvariantViolation f] is what
    [invariant(false, f)] throws, where the format [f] is a literal of the
    source or the expression [err.stack]. *)
Inductive JsError : Type :=
  | Fault (name message : string)
  | TypeError (message : string)
  | InvariantViolation (format : InvariantFormat)
with InvariantFormat : Type :=
  | FormatText (s : string)
  | FormatStackOf (err : JsError).

(** [this.state]: [status], [response], [error], [tag]; [None] in [s_error]
    is [null], [None] in [s_tag] is [undefined]. *)
Record State : Type := {
  s_status : Status;
  s_response : ResponseVal;
  s_error : option JsError;
  s_tag : option string
}.

(** The argument of [setState]: the properties present in the object
    literal. *)
Record Patch : Type := {
  patch_status : option Status;
  patch_response : option ResponseVal;
  patch_error : option (option JsError);
  patch_tag : option (option string)
}.

Definition merge (st : State) (p : Patch) : State :=
  {| s_status := default (s_status st) (patch_status p);
     s_response := default (s_response st) (patch_response p);
     s_error := default (s_error st) (patch_error p);
     s_tag := default (s_tag st) (patch_tag p) |}.

(** A user callback is an opaque handler. *)
Definition Handler : Type := nat.

(** [this.props].  The ten transport fields are arbitrary values; [p_tag]
    and [p_cache] are [None] when [undefined]; a callback is [None] when it
    is not registered. *)
Record Props : Type := {
  p_url : JsVal;
  p_method : JsVal;
  p_headers : JsVal;
  p_params : JsVal;
  p_data : JsVal;
  p_timeout : JsVal;
  p_auth : JsVal;
  p_responseType : JsVal;
  p_xsrfCookieName : JsVal;
  p_xsrfHeaderName : JsVal;
  p_tag : option string;
  p_cache : option Z;
  p_defer : bool;
  p_onStart : option Handler;
  p_onSuccess : option Handler;
  p_onFailure : option Handler;
  p_onError : option Handler
}.

(** The external store: [store.getState().requests] maps a tag to an entry
    whose [response] property may be absent. *)
Record CacheEntry : Type := { entry_response : option CachedResponse }.
Record Store : Type := { requests : gmap string CacheEntry }.

(** [this.context]: [store] is [None] when no store is configured. *)
Record Context : Type := { store : option Store }.

(** The action handed to [store.dispatch]. *)
Record Action : Type := {
  a_type : string;
  payload_tag : option string;
  payload_response : CachedResponse;
  payload_timeout : option Z
}.

(** The property of [this.props] through which a callback is reached. *)
Inductive CallbackName : Type := OnStart | OnSuccess | OnFailure | OnError.

Inductive CallbackArg : Type :=
  | NoArg
  | ArgResponse (r : ResponseVal)
  | ArgError (e : option JsError).

Inductive Event : Type :=
  | SetState (p : Patch)
  | Call (name : CallbackName) (h : Handler) (arg : CallbackArg)
  | Request (config : JsVal)
  | Dispatch (a : Action).

(** How the promise of [axios.request] settles before the response
    interceptors run. *)
Inductive Outcome : Type :=
  | Resolved (r : TransportResponse)
  | Rejected (err : JsError).

(** ** The monad of component methods *)

Inductive Completion (A : Type) : Type :=
  | Normal (a : A)
  | Throw (e : JsError).
Arguments Normal {A} a.
Arguments Throw {A} e.

Definition M (A : Type) : Type := State -> Completion A * State * list Event.

Definition ret {A} (a : A) : M A := fun st => (Normal a, st, []).

Definition bind {A B} (m : M A) (k : A -> M B) : M B :=
  fun st =>
    match m st with
    | (Normal a, st1, evs1) =>
        match k a st1 with
        | (c, st2, evs2) => (c, st2, evs1 ++ evs2)
        end
    | (Throw e, st1, evs1) => (Throw e, st1, evs1)
    end.

Definition throw {A} (e : JsError) : M A := fun st => (Throw e, st, []).

Definition emit (ev : Event) : M unit := fun st => (Normal tt, st, [ev]).

Definition get_state : M State := fun st => (Normal st, st, []).

(** [p.catch(handler)] on the promise that runs [m]. *)
Definition try_catch {A} (m : M A) (handler : JsError -> M A) : M A :=
  fun st =>
    match m st with
    | (Normal a, st1, evs1) => (Normal a, st1, evs1)
    | (Throw e, st1, evs1) =>
        match handler e st1 with
        | (c, st2, evs2) => (c, st2, evs1 ++ evs2)
        end
    end.

Notation "x <- m ;; k" := (bind m (fun x => k))
  (at level 100, m at next level, right associativity).
Notation "m ;; k" := (bind m (fun _ => k))
  (at level 100, right associativity).

(** [this.setState(patch, callback)]. *)
Definition setState (p : Patch) (callback : option (M unit)) : M unit :=
  fun st =>
    let st' := merge st p in
    match callback with
    | None => (Normal tt, st', [SetState p])
    | Some cb =>
        match cb st' with
        | (c, st'', evs) => (c, st'', SetState p :: evs)
        end
    end.

(** [invariant(condition, format)] of the [invariant] package. *)
Definition invariant (condition : bool) (format : InvariantFormat) : M unit :=
  if condition then ret tt else throw (InvariantViolation format).

(** Calling [this.props.name(arg)], where the property holds [f] and may be
    [undefined]. *)
Definition call (name : CallbackName) (f : option Handler) (arg : CallbackArg) : M unit :=
  match f with
  | Some h => emit (Call name h arg)
  | None => throw (TypeError "not a function")
  end.

(** ** Library functions the component calls *)

(** [Math.round(num / den)] for integers [num] and [den > 0]: the nearest
    integer, a tie going up.  The quotient of a status code by 100 is far
    from the range where the rounding of doubles would change the result. *)
Definition Math_round (num den : Z) : Z := (2 * num + den) / (2 * den).

Definition lower_char (c : ascii) : ascii :=
  let n := N_of_ascii c in
  if ((65 <=? n) && (n <=? 90))%N then ascii_of_N (n + 32) else c.

(** [s.toLowerCase()] on the letters A to Z; no other 8-bit code unit
    lower-cases to a letter of [cacheableMethods]. *)
Fixpoint toLowerCase (s : string) : string :=
  match s with
  | EmptyString => EmptyString
  | String c s' => String (lower_char c) (toLowerCase s')
  end.

(** [l.indexOf(x)], [-1] when [x] is absent. *)
Fixpoint indexOf (l : list string) (x : string) : Z :=
  match l with
  | [] => -1
  | y :: l' =>
      if String.eqb y x then 0
      else let i := indexOf l' x in if i =? -1 then -1 else i + 1
  end.

(** [x !== undefined] for a property that is [None] when undefined; also the
    truth value of a callback property. *)
Definition defined {A} (o : option A) : bool :=
  match o with Some _ => true | None => false end.

Definition is_undefined (v : JsVal) : bool :=
  match v with VUndefined => true | _ => false end.

Definition of_string (o : option string) : JsVal :=
  match o with Some s => VStr s | None => VUndefined end.

(** A property key made from a tag: [requests[undefined]] reads the key
    ["undefined"]. *)
Definition property_key (tag : option string) : string :=
  default "undefined"%string tag.

(** ** The component *)

(** [getConfig(props)]: the object literal with the eleven whitelisted
    properties, in the order of the source. *)
Definition getConfig (props : Props) : JsVal :=
  VObj [("url", p_url props); ("method", p_method props);
        ("headers", p_headers props); ("params", p_params props);
        ("data", p_data props); ("timeout", p_timeout props);
        ("auth", p_auth props); ("responseType", p_responseType props);
        ("xsrfCookieName", p_xsrfCookieName props);
        ("xsrfHeaderName", p_xsrfHeaderName props);
        ("tag", of_string (p_tag props))]%string.

(** [Object.keys(config).map((k) => config[k] === undefined ? delete config[k] : false)]. *)
Definition remove_undefined_keys (config : JsVal) : JsVal :=
  match config with
  | VObj fields => VObj (List.filter (fun kv => negb (is_undefined (snd kv))) fields)
  | _ => config
  end.

(** The state set by the constructor. *)
Definition constructor (props : Props) : State :=
  {| s_status := INIT; s_response := RespNull; s_error := None;
     s_tag := p_tag props |}.

Definition cacheableMethods : list string := ["head"; "get"; "post"]%string.

Section Instance.

(** [this.props] and [this.context] at the time a method runs. *)
Variable props : Props.
Variable context : Context.

Definition onSuccess : M unit :=
  st <- get_state ;; call OnSuccess (p_onSuccess props) (ArgResponse (s_response st)).

Definition onFailure : M unit :=
  st <- get_state ;; call OnFailure (p_onFailure props) (ArgResponse (s_response st)).

Definition onError : M unit :=
  st <- get_state ;; call OnError (p_onError props) (ArgError (s_error st)).

(** [getCachedResponse()]: [None] is [undefined]. *)
Definition getCachedResponse : option CachedResponse :=
  match store context with
  | None => None
  | Some st =>
      match requests st !! property_key (p_tag props) with
      | Some entry => entry_response entry
      | None => None
      end
  end.

(** [cacheResponseInterceptor(response)]: the result [None] is the bare
    [return;] of the source. *)
Definition cacheResponseInterceptor (response : TransportResponse)
  : M (option TransportResponse) :=
  match p_cache props with
  | None => ret (Some response)
  | Some _ =>
      if indexOf cacheableMethods (toLowerCase (r_method response)) =? -1
      then ret None
      else
        invariant (defined (p_cache props) && defined (store context))
          (FormatText "caching is only available when store is configured") ;;
        invariant (defined (p_cache props) && defined (p_tag props))
          (FormatText "tag property is required for caching") ;;
        emit (Dispatch {| a_type := "CACHE_REQUEST";
                          payload_tag := p_tag props;
                          payload_response :=
                            {| c_data := r_data response;
                               c_status := r_status response |};
                          payload_timeout := p_cache props |}) ;;
        ret (Some response)
  end.

(** The handler given to [.then] in [fire]; reading [response.status] of
    [undefined] raises a [TypeError]. *)
Definition fire_then (response : option TransportResponse) : M unit :=
  match response with
  | None => throw (TypeError "cannot read properties of undefined")
  | Some r =>
      let code := Math_round (r_status r) 100 in
      if code =? 2 then
        setState {| patch_status := Some SUCCESS;
                    patch_response := Some (RespTransport r);
                    patch_error := None; patch_tag := None |}
          (if defined (p_onSuccess props) then Some onSuccess else None)
      else
        setState {| patch_status := Some FAILURE;
                    patch_response := Some (RespTransport r);
                    patch_error := None; patch_tag := None |}
          (if defined (p_onFailure props) then Some onFailure else None)
  end.

(** The handler given to [.catch] in [fire]. *)
Definition fire_catch (err : JsError) : M unit :=
  setState {| patch_status := Some ERROR; patch_response := None;
              patch_error := Some (Some err); patch_tag := None |}
    (if defined (p_onError props) then Some onError else None) ;;
  invariant false (FormatStackOf err).

(** The synchronous part of [fire()].  On a cache miss its last effect is
    the call [this.axios.request(config)], whose promise settles in a
    later turn. *)
Definition fire : M unit :=
  match getCachedResponse with
  | Some cachedResponse =>
      setState {| patch_status := Some SUCCESS;
                  patch_response := Some (RespCached cachedResponse);
                  patch_error := None; patch_tag := None |}
        (if defined (p_onSuccess props) then Some onSuccess else None)
  | None =>
      let config := remove_undefined_keys (getConfig props) in
      setState {| patch_status := Some START; patch_response := None;
                  patch_error := None; patch_tag := None |}
        ((fun h => emit (Call OnStart h NoArg)) <$> p_onStart props) ;;
      emit (Request config)
  end.

(** The reactions of [this.axios.request(config).then(...).catch(...)]:
    the response interceptor, then the [.then] handler, and the [.catch]
    handler for a rejection or for an exception of the two. *)
Definition settle (o : Outcome) : M unit :=
  try_catch
    match o with
    | Resolved r => response <- cacheResponseInterceptor r ;; fire_then response
    | Rejected err => throw err
    end
    fire_catch.

Definition componentDidMount : M unit :=
  if negb (p_defer props) then fire else ret tt.

Definition componentDidUpdate (prevProps : Props) : M unit :=
  if bool_decide (JSON_stringify (getConfig props)
                  = JSON_stringify (getConfig prevProps))
  then ret tt
  else if negb (p_defer props) then fire else ret tt.

End Instance.

Definition is_request (ev : Event) : bool :=
  match ev with Request _ => true | _ => false end.

(** One [fire()] followed to its end: the synchronous part and, when it
    issued a transport call, the settlement [o] of that call (with the props
    and the context unchanged in between). *)
Definition fire_invocation (props : Props) (context : Context) (o : Outcome) : M unit :=
  fun st =>
    match fire props context st with
    | (c, st1, evs1) =>
        if existsb is_request evs1 then
          match settle props context o st1 with
          | (c2, st2, evs2) => (c2, st2, evs1 ++ evs2)
          end
        else (c, st1, evs1)
    end.

(** ** Observations on a list of events *)

Definition statuses (evs : list Event) : list Status :=
  omap (fun ev => match ev with SetState p => patch_status p | _ => None end) evs.

Definition requests_made (evs : list Event) : list JsVal :=
  omap (fun ev => match ev with Request c => Some c | _ => None end) evs.

Definition dispatched (evs : list Event) : list Action :=
  omap (fun ev => match ev with Dispatch a => Some a | _ => None end) evs.

Definition patches (evs : list Event) : list Patch :=
  omap (fun ev => match ev with SetState p => Some p | _ => None end) evs.

(** The calls of [onSuccess], [onFailure] and [onError], in order. *)
Definition outcome_calls (evs : list Event) : list CallbackName :=
  omap (fun ev => match ev with
                  | Call OnStart _ _ => None
                  | Call name _ _ => Some name
                  | _ => None
                  end) evs.

(** ** The events and the state of a transition *)

(** The call of a callback that is made only when it is registered. *)
Definition maybe_call (name : CallbackName) (f : option Handler) (arg : CallbackArg)
  : list Event :=
  match f with Some h => [Call name h arg] | None => [] end.

Definition success_patch (r : ResponseVal) : Patch :=
  {| patch_status := Some SUCCESS; patch_response := Some r;
     patch_error := None; patch_tag := None |}.

Definition failure_patch (r : ResponseVal) : Patch :=
  {| patch_status := Some FAILURE; patch_response := Some r;
     patch_error := None; patch_tag := None |}.

Definition error_patch (err : JsError) : Patch :=
  {| patch_status := Some ERROR; patch_response := None;
     patch_error := Some (Some err); patch_tag := None |}.

Definition start_patch : Patch :=
  {| patch_status := Some START; patch_response := None;
     patch_error := None; patch_tag := None |}.

(** The test of the response interceptor: the lower-cased method of the
    response is one of [cacheableMethods]. *)
Definition cacheable (r : TransportResponse) : bool :=
  negb (indexOf cacheableMethods (toLowerCase (r_method r)) =? -1).

(** The action the response interceptor dispatches for [r]. *)
Definition cache_action (props : Props) (r : TransportResponse) : Action :=
  {| a_type := "CACHE_REQUEST"; payload_tag := p_tag props;
     payload_response := {| c_data := r_data r; c_status := r_status r |};
     payload_timeout := p_cache props |}.

(** The transitions that end a request, with the callback each one names
    and the argument the callback reads from the new state. *)
Inductive settled : Patch -> CallbackName -> CallbackArg -> Prop :=
  | settled_success r :
      settled (success_patch (RespTransport r)) OnSuccess (ArgResponse (RespTransport r))
  | settled_cached c :
      settled (success_patch (RespCached c)) OnSuccess (ArgResponse (RespCached c))
  | settled_failure r :
      settled (failure_patch (RespTransport r)) OnFailure (ArgResponse (RespTransport r))
  | settled_error err :
      settled (error_patch err) OnError (ArgError (Some err)).

Definition is_dispatch (ev : Event) : bool :=
  match ev with Dispatch _ => true | _ => false end.

(** The three components of the result of a method. *)
Definition state_of {A} (x : Completion A * State * list Event) : State := snd (fst x).
Definition events_of {A} (x : Completion A * State * list Event) : list Event := snd x.
Definition completion_of {A} (x : Completion A * State * list Event) : Completion A :=
  fst (fst x).

(** [this.props[name]]. *)
Definition callback (props : Props) (name : CallbackName) : option Handler :=
  match name with
  | OnStart => p_onStart props
  | OnSuccess => p_onSuccess props
  | OnFailure => p_onFailure props
  | OnError => p_onError props
  end.

Definition terminal (s : Status) : bool :=
  match s with SUCCESS | FAILURE | ERROR => true | _ => false end.

(** The callback that belongs to a final status. *)
Definition callback_for (s : Status) : option CallbackName :=
  match s with
  | SUCCESS => Some OnSuccess
  | FAILURE => Some OnFailure
  | ERROR => Some OnError
  | _ => None
  end.

(** ** Deep structural equality

    The comparison the specification names for two configurations: equal
    primitives, arrays equal element by element, objects with the same
    properties holding deeply equal values, whatever the order in which the
    properties were written. *)

Fixpoint assoc (k : string) (fields : list (string * JsVal)) : option JsVal :=
  match fields with
  | [] => None
  | (k', v) :: fields' => if String.eqb k k' then Some v else assoc k fields'
  end.

Fixpoint deep_equal (a b : JsVal) : bool :=
  match a, b with
  | VUndefined, VUndefined => true
  | VNull, VNull => true
  | VBool x, VBool y => Bool.eqb x y
  | VNum x, VNum y => x =? y
  | VStr x, VStr y => String.eqb x y
  | VFun x, VFun y => Nat.eqb x y
  | VArr xs, VArr ys =>
      (fix all2 (xs ys : list JsVal) {struct xs} : bool :=
         match xs, ys with
         | [], [] => true
         | x :: xs', y :: ys' => deep_equal x y && all2 xs' ys'
         | _, _ => false
         end) xs ys
  | VObj fs, VObj gs =>
      Nat.eqb (length fs) (length gs)
      && forallb (fun kv => match assoc (fst kv) gs with
                            | Some w => deep_equal (snd kv) w
                            | None => false
                            end) fs
  | _, _ => false
  end.

(** ** Statements of the specification *)

(** The sequence the specification asks of every invocation: START, then
    exactly one of SUCCESS, FAILURE and ERROR. *)
Definition START_then_terminal (l : list Status) : Prop :=
  exists t, terminal t = true /\ l = [START; t].

(** What the specification asks of a configuration with a cache duration
    and no tag: an invariant violation, and no transport call. *)
Definition asserts_before_transport (x : Completion unit * State * list Event) : Prop :=
  (exists f, completion_of x = Throw (InvariantViolation f))
  /\ requests_made (events_of x) = [].

(** What a transition may write: a status, and at most one of [response]
    and [error], never [null], never the tag. *)
Definition framed (p : Patch) : Prop :=
  patch_tag p = None
  /\ patch_response p <> Some RespNull
  /\ patch_error p <> Some None
  /\ (patch_response p = None \/ patch_error p = None).

(** A method that returns at once: no state change, no effect. *)
Definition no_op (st : State) : Completion unit * State * list Event :=
  (Normal tt, st, []).

(** ** JSON data and the shape of its text *)

(** Every code unit of [s] satisfies [P]. *)
Fixpoint all_chars (P : ascii -> bool) (s : string) : bool :=
  match s with
  | EmptyString => true
  | String c s' => P c && all_chars P s'
  end.

(** The remainder [r] of a text does not continue a run of [P]. *)
Definition stops (P : ascii -> bool) (r : string) : bool :=
  match r with
  | EmptyString => true
  | String c _ => negb (P c)
  end.

(** The code units of a printed integer: the minus sign and the digits. *)
Definition num_char (c : ascii) : bool :=
  let n := N_of_ascii c in (n =? 45)%N || ((48 <=? n) && (n <=? 57))%N.

(** What follows a value inside a text: nothing, a comma or a closing
    bracket. *)
Definition delimiter (c : ascii) : bool :=
  let n := N_of_ascii c in ((n =? 44) || (n =? 93) || (n =? 125))%N.

Definition delimited (r : string) : bool :=
  match r with
  | EmptyString => true
  | String c _ => delimiter c
  end.

(** The value of a lower-case hexadecimal digit. *)
Definition hex_value (c : ascii) : N :=
  let n := N_of_ascii c in
  if (n <? 58)%N then (n - 48)%N else (n - 87)%N.

(** Reading back the first code unit of an escaped string body; [None] at
    the closing quote.  Used to show that [quote] is injective. *)
Definition unquote_char (s : string) : option (ascii * string) :=
  match s with
  | EmptyString => None
  | String c rest =>
      if Ascii.eqb c dquote then None
      else if Ascii.eqb c backslash then
        match rest with
        | String e rest' =>
            if Ascii.eqb e "b" then Some ("008"%char, rest')
            else if Ascii.eqb e "f" then Some ("012"%char, rest')
            else if Ascii.eqb e "n" then Some ("010"%char, rest')
            else if Ascii.eqb e "r" then Some ("013"%char, rest')
            else if Ascii.eqb e "t" then Some ("009"%char, rest')
            else if Ascii.eqb e "u" then
              match rest' with
              | String _ (String _ (String h (String l rest''))) =>
                  Some (ascii_of_N (16 * hex_value h + hex_value l), rest'')
              | _ => None
              end
            else Some (e, rest')
        | EmptyString => None
        end
      else Some (c, rest)
  end.

(** JSON data: no [undefined] and no function, at any depth. *)
Fixpoint json_data (v : JsVal) : bool :=
  match v with
  | VUndefined | VFun _ => false
  | VNull | VBool _ | VNum _ | VStr _ => true
  | VArr items => forallb json_data items
  | VObj fields => forallb (fun kv => json_data (snd kv)) fields
  end.

(** The text of a value where one is always printed: an element of an
    array. *)
Definition json_text (v : JsVal) : string := default "null"%string (JSON_stringify v).

Definition member_text (kv : string * JsVal) : string :=
  quote (fst kv) +:+ ":" +:+ json_text (snd kv).

(** The text after the first element of a bracketed sequence. *)
Fixpoint tail_text (close : ascii) (l : list string) (rest : string) : string :=
  match l with
  | [] => String close rest
  | x :: l' => String "," (x +:+ tail_text close l' rest)
  end.

Definition seq_text (close : ascii) (l : list string) (rest : string) : string :=
  match l with
  | [] => String close rest
  | x :: l' => x +:+ tail_text close l' rest
  end.

(** The member texts of an object, as [JSON_stringify] joins them. *)
Definition members (fields : list (string * JsVal)) : list string :=
  omap (fun kv => match JSON_stringify (snd kv) with
                  | Some s => Some (quote (fst kv) +:+ ":" +:+ s)
                  | None => None
                  end) fields.

(** The constructors of JSON data, numbered; 6 for what is not data. *)
Definition kind (v : JsVal) : nat :=
  match v with
  | VNull => 0 | VBool _ => 1 | VNum _ => 2 | VStr _ => 3 | VArr _ => 4 | VObj _ => 5
  | VUndefined | VFun _ => 6
  end%nat.

(** The constructor announced by a first code unit. *)
Definition kind_of_char (c : ascii) : nat :=
  if Ascii.eqb c "n" then 0
  else if Ascii.eqb c "t" || Ascii.eqb c "f" then 1
  else if num_char c then 2
  else if Ascii.eqb c dquote then 3
  else if Ascii.eqb c "[" then 4
  else if Ascii.eqb c "{" then 5
  else 6%nat.

(** A field of a configuration that [JSON.stringify] renders without loss:
    [undefined] (the property is left out) or JSON data. *)
Definition json_field (v : JsVal) : bool := is_undefined v || json_data v.

(** A configuration all of whose fields are such. *)
Definition json_config (config : JsVal) : bool :=
  match config with
  | VObj fields => forallb (fun kv => json_field (snd kv)) fields
  | _ => false
  end.

(** The fields that [remove_undefined_keys] keeps. *)
Definition defined_field (kv : string * JsVal) : bool := negb (is_undefined (snd kv)).

(** The text of [x], followed by a delimiter or by nothing, determines
    [x] and what follows. *)
Definition element_unique {A : Type} (pr : A -> string) (ok : A -> bool) (x : A) : Prop :=
  forall y r r',
    ok x = true -> ok y = true -> delimited r = true -> delimited r' = true ->
    pr x +:+ r = pr y +:+ r' -> x = y /\ r = r'.

(** ** Sample inputs *)

Definition sample_props : Props :=
  {| p_url := VStr "/items"; p_method := VStr "get"; p_headers := VUndefined;
     p_params := VUndefined; p_data := VUndefined; p_timeout := VUndefined;
     p_auth := VUndefined; p_responseType := VUndefined;
     p_xsrfCookieName := VUndefined; p_xsrfHeaderName := VUndefined;
     p_tag := Some "T"%string; p_cache := None; p_defer := false;
     p_onStart := Some 1%nat; p_onSuccess := Some 2%nat;
     p_onFailure := Some 3%nat; p_onError := Some 4%nat |}.

Definition no_store : Context := {| store := None |}.

Definition sample_response (status : Z) (method : string) : TransportResponse :=
  {| r_data := VArr [VNum 1; VNum 2; VNum 3]; r_status := status; r_method := method |}.

Definition cached_X : CachedResponse := {| c_data := VStr "X"; c_status := 200 |}.

Definition store_with_T : Context :=
  {| store := Some {| requests := {[ "T"%string := {| entry_response := Some cached_X |} ]} |} |}.

(** The store of [store_with_T]. *)
Definition stored_T : Store :=
  {| requests := {[ "T"%string := {| entry_response := Some cached_X |} ]} |}.

(** A request with the given method, tag and cache duration, all four
    callbacks registered. *)
Definition caching_props (method : string) (tag : option string) (cache : option Z)
  : Props :=
  {| p_url := VStr "/items"; p_method := VStr method; p_headers := VUndefined;
     p_params := VUndefined; p_data := VUndefined; p_timeout := VUndefined;
     p_auth := VUndefined; p_responseType := VUndefined;
     p_xsrfCookieName := VUndefined; p_xsrfHeaderName := VUndefined;
     p_tag := tag; p_cache := cache; p_defer := false;
     p_onStart := Some 1%nat; p_onSuccess := Some 2%nat;
     p_onFailure := Some 3%nat; p_onError := Some 4%nat |}.

(** A request whose [headers] and [params] are given. *)
Definition request_with (headers params : JsVal) (defer : bool)
  (onStart onSuccess : option Handler) : Props :=
  {| p_url := VStr "/items"; p_method := VStr "get"; p_headers := headers;
     p_params := params; p_data := VUndefined; p_timeout := VUndefined;
     p_auth := VUndefined; p_responseType := VUndefined;
     p_xsrfCookieName := VUndefined; p_xsrfHeaderName := VUndefined;
     p_tag := Some "T"%string; p_cache := None; p_defer := defer;
     p_onStart := onStart; p_onSuccess := onSuccess;
     p_onFailure := None; p_onError := None |}.

(** ** The rest of the component *)

(** [config[k]]: a property that is absent reads as [undefined]. *)
Definition property (config : JsVal) (k : string) : JsVal :=
  match config with
  | VObj fields => default VUndefined (assoc k fields)
  | _ => VUndefined
  end.

(** [Object.keys(config)]. *)
Definition Object_keys (config : JsVal) : list string :=
  match config with
  | VObj fields => map fst fields
  | _ => []
  end.

(** The truth value of a JavaScript value. *)
Definition truthy (v : JsVal) : bool :=
  match v with
  | VUndefined | VNull => false
  | VBool b => b
  | VNum n => negb (n =? 0)
  | VStr s => negb (String.eqb s EmptyString)
  | VArr _ | VObj _ | VFun _ => true
  end.

(** A computation that only completes. *)
Definition complete {A} (c : Completion A) : M A := fun st => (c, st, []).

Section Render.

(** [React.Children.count] and [React.Children.only] belong to React; the
    second one returns its argument or throws. *)
Variable Children_count : JsVal -> Z.
Variable Children_only : JsVal -> Completion JsVal.

(** [render()], with [children] for [this.props.children]. *)
Definition render (children : JsVal) : M JsVal :=
  invariant (truthy children || (Children_count children =? 1))
    (FormatText "A <Request> may have only one child element") ;;
  if truthy children then complete (Children_only children) else ret VNull.

End Render.

(** ** What a resolved response meets on its way to the [.then] handler *)

(** The fault that stops a resolved response before it is classified:
    the [TypeError] of the [.then] handler after the interceptor returned
    [undefined], or the invariant violation of the interceptor. *)
Definition pipeline_fault (props : Props) (context : Context) (r : TransportResponse)
  : option JsError :=
  match p_cache props with
  | None => None
  | Some _ =>
      if bool_decide (toLowerCase (r_method r) ∈ cacheableMethods) then
        if defined (store context) then
          if defined (p_tag props) then None
          else Some (InvariantViolation
                       (FormatText "tag property is required for caching"))
        else Some (InvariantViolation
                     (FormatText "caching is only available when store is configured"))
      else Some (TypeError "cannot read properties of undefined")
  end.

(** The fault of a settlement, if any. *)
Definition outcome_fault (props : Props) (context : Context) (o : Outcome)
  : option JsError :=
  match o with
  | Resolved r => pipeline_fault props context r
  | Rejected err => Some err
  end.

(** The argument a callback reads from the state. *)
Definition callback_arg (name : CallbackName) (st : State) : CallbackArg :=
  match name with
  | OnStart => NoArg
  | OnSuccess | OnFailure => ArgResponse (s_response st)
  | OnError => ArgError (s_error st)
  end.

(** The transition of a response that reached the [.then] handler, as the
    handler classifies it: SUCCESS for the codes that [Math.round] sends to
    2, FAILURE for the others. *)
Definition classified_patch (r : TransportResponse) : Patch :=
  if bool_decide (150 <= r_status r <= 249)
  then success_patch (RespTransport r)
  else failure_patch (RespTransport r).

Definition classified_name (r : TransportResponse) : CallbackName :=
  if bool_decide (150 <= r_status r <= 249) then OnSuccess else OnFailure.

(** The cache write of a settlement: one [dispatch] for a resolved response
    that meets no fault while caching is configured. *)
Definition cache_writes (props : Props) (context : Context) (o : Outcome) : list Event :=
  match o with
  | Resolved r =>
      if defined (p_cache props) && negb (defined (pipeline_fault props context r))
      then [Dispatch (cache_action props r)]
      else []
  | Rejected _ => []
  end.

(** The events other than the calls of [onStart], and those calls. *)
Definition is_onStart_call (ev : Event) : bool :=
  match ev with Call OnStart _ _ => true | _ => false end.

Definition without_onStart (evs : list Event) : list Event :=
  List.filter (fun ev => negb (is_onStart_call ev)) evs.

Definition onStart_calls (evs : list Event) : list (Handler * CallbackArg) :=
  omap (fun ev => match ev with Call OnStart h arg => Some (h, arg) | _ => None end) evs.

(** Two requests that differ in everything the transport sees, under one
    tag. *)
Definition items_request : Props := caching_props "get" (Some "T"%string) None.

Definition users_request : Props :=
  {| p_url := VStr "/users"; p_method := VStr "post"; p_headers := VObj [];
     p_params := VUndefined; p_data := VStr "body"; p_timeout := VNum 10;
     p_auth := VUndefined; p_responseType := VUndefined;
     p_xsrfCookieName := VUndefined; p_xsrfHeaderName := VUndefined;
     p_tag := Some "T"%string; p_cache := Some 1; p_defer := true;
     p_onStart := None; p_onSuccess := Some 2%nat;
     p_onFailure := None; p_onError := None |}.

(** * Part II: properties *)

(** ** [JSON.stringify] determines JSON data *)

Example stringify_example :
  JSON_stringify (VObj [("m", VUndefined); ("h", VObj [("a", VNum 1); ("b", VNum (-20))]);
                        ("d", VArr [VNull; VUndefined; VBool true])]%string)
  = Some (String "{" (String dquote (String "h" (String dquote
            (":{" +:+ String dquote (String "a" (String dquote
            (":1," +:+ String dquote (String "b" (String dquote
            (":-20}," +:+ String dquote (String "d" (String dquote
            ":[null,null,true]}")))))))))))))%string.
Proof. vm_compute. reflexivity. Qed.

Local Arguments String.append !s1 s2 : simpl nomatch.

Lemma append_assoc (s t u : string) : (s +:+ t) +:+ u = s +:+ (t +:+ u).
Proof. induction s as [|c s IH]; [reflexivity|]. simpl. rewrite IH. reflexivity. Qed.

Lemma append_nil_r (s : string) : s +:+ EmptyString = s.
Proof. induction s as [|c s IH]; [reflexivity|]. simpl. rewrite IH. reflexivity. Qed.

Lemma all_chars_app P s t :
  all_chars P (s +:+ t) = all_chars P s && all_chars P t.
Proof.
  induction s as [|c s IH]; [reflexivity|].
  simpl. rewrite IH, andb_assoc. reflexivity.
Qed.

Lemma span_unique P s s' r r' :
  all_chars P s = true -> all_chars P s' = true ->
  stops P r = true -> stops P r' = true ->
  s +:+ r = s' +:+ r' -> s = s' /\ r = r'.
Proof.
  revert s'. induction s as [|c s IH]; intros [|c' s'] Hs Hs' Hr Hr' Heq; cbn in *.
  - split; [reflexivity|exact Heq].
  - subst r. cbn in Hr. apply andb_prop in Hs' as [Hc _].
    rewrite Hc in Hr. discriminate Hr.
  - subst r'. cbn in Hr'. apply andb_prop in Hs as [Hc _].
    rewrite Hc in Hr'. discriminate Hr'.
  - injection Heq as -> Heq.
    apply andb_prop in Hs as [_ Hs]. apply andb_prop in Hs' as [_ Hs'].
    destruct (IH s' Hs Hs' Hr Hr' Heq) as [-> ->]. split; reflexivity.
Qed.

Lemma delimited_stops_num r : delimited r = true -> stops num_char r = true.
Proof.
  destruct r as [|c r]; [reflexivity|]. cbn. unfold delimiter, num_char.
  intros H. repeat (apply orb_prop in H as [H|H]);
    apply N.eqb_eq in H; rewrite H; reflexivity.
Qed.

Lemma pretty_N_char_num (d : N) : num_char (pretty_N_char d) = true.
Proof.
  destruct d as [|p]; [reflexivity|].
  do 4 (try destruct p as [p|p|]); reflexivity.
Qed.

(** The digits that [pretty] puts before its accumulator. *)
Lemma pretty_N_go_digits (x : N) :
  forall s, exists pre,
    pretty_N_go x s = pre +:+ s
    /\ all_chars num_char pre = true
    /\ ((0 < x)%N -> pre <> EmptyString).
Proof.
  induction (N.lt_wf_0 x) as [x _ IH]. intros s.
  destruct (N.eq_dec x 0%N) as [->|Hx].
  - exists EmptyString. rewrite pretty_N_go_0. repeat split. intros H. lia.
  - assert (Hpos : (0 < x)%N) by lia.
    rewrite pretty_N_go_step by exact Hpos.
    destruct (IH (x `div` 10)%N (N.div_lt x 10 Hpos eq_refl)
                (String (pretty_N_char (x `mod` 10)) s)) as (pre & -> & Hpre & _).
    exists (pre +:+ String (pretty_N_char (x `mod` 10)) EmptyString).
    rewrite append_assoc. split; [reflexivity|]. split.
    + rewrite all_chars_app, Hpre. simpl. rewrite pretty_N_char_num. reflexivity.
    + intros _ Hnil. destruct pre; discriminate Hnil.
Qed.

Lemma pretty_N_chars (x : N) :
  all_chars num_char (pretty x) = true /\ pretty x <> EmptyString.
Proof.
  unfold pretty, pretty_N. case_decide as Hx.
  - split; [reflexivity|discriminate].
  - destruct (pretty_N_go_digits x EmptyString) as (pre & -> & Hpre & Hne).
    rewrite append_nil_r. split; [exact Hpre|]. apply Hne. lia.
Qed.

Lemma pretty_Z_chars (n : Z) :
  all_chars num_char (pretty n) = true /\ pretty n <> EmptyString.
Proof.
  destruct n as [|p|p]; unfold pretty, pretty_Z.
  - split; [reflexivity|discriminate].
  - apply (pretty_N_chars (N.pos p)).
  - destruct (pretty_N_chars (N.pos p)) as [H _].
    split; [cbn; exact H|discriminate].
Qed.

Lemma unquote_quote_char (c : ascii) (rest : string) :
  unquote_char (quote_char c +:+ rest) = Some (c, rest).
Proof.
  destruct c as [[] [] [] [] [] [] [] []]; reflexivity.
Qed.

Lemma quote_body_inj (s : string) :
  forall s' r r',
    quote_body s +:+ String dquote r = quote_body s' +:+ String dquote r' ->
    s = s' /\ r = r'.
Proof.
  induction s as [|c s IH]; intros [|c' s'] r r' Heq; simpl in Heq.
  - injection Heq as ->. split; reflexivity.
  - rewrite append_assoc in Heq. apply (f_equal unquote_char) in Heq.
    rewrite unquote_quote_char in Heq. discriminate Heq.
  - rewrite append_assoc in Heq. apply (f_equal unquote_char) in Heq.
    rewrite unquote_quote_char in Heq. discriminate Heq.
  - rewrite !append_assoc in Heq. apply (f_equal unquote_char) in Heq.
    rewrite !unquote_quote_char in Heq. injection Heq as -> Heq.
    destruct (IH s' r r' Heq) as [-> ->]. split; reflexivity.
Qed.

Lemma quote_inj (s s' r r' : string) :
  quote s +:+ r = quote s' +:+ r' -> s = s' /\ r = r'.
Proof.
  unfold quote. simpl. rewrite !append_assoc. simpl.
  intros Heq. injection Heq as Heq. exact (quote_body_inj s s' r r' Heq).
Qed.

Lemma JsVal_nested_ind (P : JsVal -> Prop) :
  P VUndefined -> P VNull -> (forall b, P (VBool b)) -> (forall n, P (VNum n)) ->
  (forall s, P (VStr s)) ->
  (forall items, Forall P items -> P (VArr items)) ->
  (forall fields, Forall (fun kv => P (snd kv)) fields -> P (VObj fields)) ->
  (forall id, P (VFun id)) ->
  forall v, P v.
Proof.
  intros Hu Hn Hb Hnum Hs Harr Hobj Hf.
  fix IH 1. intros [| |b|n|s|items|fields|id].
  - exact Hu.
  - exact Hn.
  - apply Hb.
  - apply Hnum.
  - apply Hs.
  - apply Harr. induction items as [|x items IHi]; constructor; [apply IH|exact IHi].
  - apply Hobj. induction fields as [|[k x] fields IHf]; constructor; [apply IH|exact IHf].
  - apply Hf.
Qed.

Lemma join_tail (close : ascii) (x : string) (l : list string) (rest : string) :
  join "," (x :: l) +:+ String close rest = x +:+ tail_text close l rest.
Proof.
  revert x. induction l as [|y l IH]; intros x; [reflexivity|].
  change (join "," (x :: y :: l)) with (x +:+ "," +:+ join "," (y :: l)).
  rewrite !append_assoc. rewrite IH. reflexivity.
Qed.

Lemma bracket_text (opening close : ascii) (l : list string) (rest : string) :
  (String opening EmptyString +:+ join "," l +:+ String close EmptyString) +:+ rest
  = String opening (seq_text close l rest).
Proof.
  simpl. f_equal. rewrite append_assoc. simpl.
  destruct l as [|x l]; [reflexivity|]. apply join_tail.
Qed.

Lemma tail_text_delimited close l rest :
  delimiter close = true -> delimited (tail_text close l rest) = true.
Proof. intros Hc. destruct l; [exact Hc|reflexivity]. Qed.

Lemma json_data_stringify v : json_data v = true -> JSON_stringify v = Some (json_text v).
Proof. destruct v as [| |[]| | | | |]; (discriminate || reflexivity). Qed.

Lemma json_text_VArr items rest :
  json_text (VArr items) +:+ rest = String "[" (seq_text "]" (map json_text items) rest).
Proof. apply (bracket_text "[" "]"). Qed.

Lemma JSON_stringify_VObj fields :
  JSON_stringify (VObj fields) = Some ("{" +:+ join "," (members fields) +:+ "}").
Proof. reflexivity. Qed.

Lemma members_of_data fields :
  forallb (fun kv => json_data (snd kv)) fields = true ->
  members fields = map member_text fields.
Proof.
  induction fields as [|[k v] fields IH]; [reflexivity|].
  simpl. intros [Hv Hf]%andb_prop.
  unfold members in *. cbn [omap list_omap snd fst].
  rewrite (json_data_stringify v Hv). cbn [option_bind mbind].
  rewrite (IH Hf). reflexivity.
Qed.

Lemma json_text_VObj fields rest :
  forallb (fun kv => json_data (snd kv)) fields = true ->
  json_text (VObj fields) +:+ rest
  = String "{" (seq_text "}" (map member_text fields) rest).
Proof.
  intros Hf. unfold json_text. rewrite JSON_stringify_VObj.
  rewrite (members_of_data fields Hf). apply (bracket_text "{" "}").
Qed.

Lemma num_char_kind c : num_char c = true -> kind_of_char c = 2%nat.
Proof.
  unfold kind_of_char, num_char.
  destruct c as [[] [] [] [] [] [] [] []]; (discriminate || reflexivity).
Qed.

Lemma json_text_kind v rest :
  json_data v = true ->
  exists c s, json_text v +:+ rest = String c s /\ kind_of_char c = kind v.
Proof.
  destruct v as [| |[]|n|s|items|fields|id]; intros Hv; try discriminate Hv;
    try (eexists _, _; split; [reflexivity|reflexivity]).
  destruct (pretty_Z_chars n) as [Hc Hne].
  unfold json_text. cbn [JSON_stringify default].
  destruct (pretty n) as [|c s]; [contradiction|].
  exists c, (s +:+ rest). split; [reflexivity|].
  simpl in Hc. apply andb_prop in Hc as [Hc _]. exact (num_char_kind c Hc).
Qed.

Section Sequences.

Context {A : Type} (pr : A -> string) (ok : A -> bool) (close : ascii).

Hypothesis close_delimiter : delimiter close = true.
Hypothesis close_not_comma : close <> ","%char.
Hypothesis pr_first :
  forall x rest, ok x = true ->
    exists c s, pr x +:+ rest = String c s /\ delimiter c = false.

Lemma tail_text_inj xs :
  Forall (element_unique pr ok) xs -> forallb ok xs = true ->
  forall ys r r', forallb ok ys = true ->
    tail_text close (map pr xs) r = tail_text close (map pr ys) r' ->
    xs = ys /\ r = r'.
Proof.
  induction 1 as [|x xs Hx _ IH]; intros Hxs [|y ys] r r' Hys Heq; simpl in Heq.
  - injection Heq as ->. split; reflexivity.
  - injection Heq as Hc _. contradiction.
  - injection Heq as Hc _. symmetry in Hc. contradiction.
  - injection Heq as Heq.
    simpl in Hxs, Hys. apply andb_prop in Hxs as [Hokx Hxs].
    apply andb_prop in Hys as [Hoky Hys].
    destruct (Hx y _ _ Hokx Hoky
                (tail_text_delimited close _ r close_delimiter)
                (tail_text_delimited close _ r' close_delimiter) Heq) as [-> Heq'].
    destruct (IH Hxs ys r r' Hys Heq') as [-> ->]. split; reflexivity.
Qed.

Lemma seq_text_inj xs :
  Forall (element_unique pr ok) xs -> forallb ok xs = true ->
  forall ys r r', forallb ok ys = true ->
    seq_text close (map pr xs) r = seq_text close (map pr ys) r' ->
    xs = ys /\ r = r'.
Proof.
  intros HF Hxs ys r r' Hys Heq.
  destruct HF as [|x xs Hx HF]; destruct ys as [|y ys]; simpl in Heq.
  - injection Heq as ->. split; reflexivity.
  - simpl in Hys. apply andb_prop in Hys as [Hoky _].
    destruct (pr_first y (tail_text close (map pr ys) r') Hoky) as (c & s & Hcs & Hd).
    rewrite Hcs in Heq. injection Heq as -> _.
    rewrite close_delimiter in Hd. discriminate Hd.
  - simpl in Hxs. apply andb_prop in Hxs as [Hokx _].
    destruct (pr_first x (tail_text close (map pr xs) r) Hokx) as (c & s & Hcs & Hd).
    rewrite Hcs in Heq. injection Heq as <- _.
    rewrite close_delimiter in Hd. discriminate Hd.
  - simpl in Hxs, Hys. apply andb_prop in Hxs as [Hokx Hxs].
    apply andb_prop in Hys as [Hoky Hys].
    destruct (Hx y _ _ Hokx Hoky
                (tail_text_delimited close _ r close_delimiter)
                (tail_text_delimited close _ r' close_delimiter) Heq) as [-> Heq'].
    destruct (tail_text_inj xs HF Hxs ys r r' Hys Heq') as [-> ->].
    split; reflexivity.
Qed.

End Sequences.

Lemma kind_not_delimiter c : (kind_of_char c < 6)%nat -> delimiter c = false.
Proof.
  unfold kind_of_char, delimiter, num_char.
  destruct c as [[] [] [] [] [] [] [] []]; vm_compute; intros H;
    (reflexivity || (exfalso; lia)).
Qed.

Lemma json_text_first v rest :
  json_data v = true ->
  exists c s, json_text v +:+ rest = String c s /\ delimiter c = false.
Proof.
  intros Hv. destruct (json_text_kind v rest Hv) as (c & s & Heq & Hk).
  exists c, s. split; [exact Heq|]. apply kind_not_delimiter. rewrite Hk.
  destruct v; (discriminate Hv || cbn; lia).
Qed.

Lemma member_text_first (kv : string * JsVal) rest :
  json_data (snd kv) = true ->
  exists c s, member_text kv +:+ rest = String c s /\ delimiter c = false.
Proof. intros _. eexists _, _. split; reflexivity. Qed.

Lemma same_kind v w r r' :
  json_data v = true -> json_data w = true ->
  json_text v +:+ r = json_text w +:+ r' -> kind v = kind w.
Proof.
  intros Hv Hw Heq.
  destruct (json_text_kind v r Hv) as (c & s & Hcs & <-).
  destruct (json_text_kind w r' Hw) as (c' & s' & Hcs' & <-).
  rewrite Hcs, Hcs' in Heq. injection Heq as -> _. reflexivity.
Qed.

Lemma member_text_unique (kv : string * JsVal) :
  element_unique json_text json_data (snd kv) ->
  element_unique member_text (fun kv => json_data (snd kv)) kv.
Proof.
  destruct kv as [k v]. intros Hv [k' v'] r r' Hok Hok' Hr Hr' Heq.
  unfold member_text in Heq. cbn [fst snd] in *.
  rewrite !append_assoc in Heq.
  apply quote_inj in Heq as [-> Heq].
  change (String ":" (json_text v +:+ r) = String ":" (json_text v' +:+ r')) in Heq.
  injection Heq as Heq.
  destruct (Hv v' r r' Hok Hok' Hr Hr' Heq) as [-> ->]. split; reflexivity.
Qed.

(** The text of JSON data, followed by a delimiter or by nothing,
    determines the data and what follows. *)
Lemma json_text_unique v : element_unique json_text json_data v.
Proof.
  induction v as [| |b|n|s|items IH|fields IH|id] using JsVal_nested_ind;
    intros w r r' Hv Hw Hr Hr' Heq; try discriminate Hv;
    pose proof (same_kind _ _ _ _ Hv Hw Heq) as Hk;
    destruct w as [| |b'|n'|s'|items'|fields'|id']; try discriminate Hk.
  - apply (inj (String.app "null")) in Heq. split; [reflexivity|exact Heq].
  - destruct b, b'; try discriminate Heq.
    + apply (inj (String.app "true")) in Heq. split; [reflexivity|exact Heq].
    + apply (inj (String.app "false")) in Heq. split; [reflexivity|exact Heq].
  - change (pretty n +:+ r = pretty n' +:+ r') in Heq.
    apply span_unique with (P := num_char) in Heq as [Heq ->];
      [|apply pretty_Z_chars|apply pretty_Z_chars
       |apply delimited_stops_num, Hr|apply delimited_stops_num, Hr'].
    apply (inj pretty) in Heq. subst n'. split; reflexivity.
  - change (quote s +:+ r = quote s' +:+ r') in Heq.
    apply quote_inj in Heq as [-> ->]. split; reflexivity.
  - rewrite !json_text_VArr in Heq. injection Heq as Heq.
    apply (seq_text_inj json_text json_data "]") in Heq as [-> ->];
      [split; reflexivity|reflexivity|discriminate|apply json_text_first
       |exact IH|exact Hv|exact Hw].
  - rewrite (json_text_VObj fields r Hv), (json_text_VObj fields' r' Hw) in Heq.
    injection Heq as Heq.
    apply (seq_text_inj member_text (fun kv => json_data (snd kv)) "}")
      in Heq as [-> ->];
      [split; reflexivity|reflexivity|discriminate|apply member_text_first
       | |exact Hv|exact Hw].
    eapply Forall_impl; [exact IH|]. intros kv Hkv. apply member_text_unique, Hkv.
Qed.

(** On JSON data, [JSON.stringify] is injective. *)
Lemma JSON_stringify_inj v w :
  json_data v = true -> json_data w = true ->
  JSON_stringify v = JSON_stringify w -> v = w.
Proof.
  intros Hv Hw Heq.
  assert (Ht : json_text v +:+ EmptyString = json_text w +:+ EmptyString).
  { unfold json_text. rewrite Heq. reflexivity. }
  exact (proj1 (json_text_unique v w EmptyString EmptyString Hv Hw eq_refl eq_refl Ht)).
Qed.

Lemma members_defined fields :
  members (List.filter defined_field fields) = members fields.
Proof.
  induction fields as [|[k v] fields IH]; [reflexivity|].
  destruct v; cbn [List.filter defined_field is_undefined negb snd];
    unfold members in *; cbn [omap list_omap]; rewrite IH; reflexivity.
Qed.

Lemma JSON_stringify_defined fields :
  JSON_stringify (VObj (List.filter defined_field fields)) = JSON_stringify (VObj fields).
Proof. rewrite !JSON_stringify_VObj, members_defined. reflexivity. Qed.

Lemma defined_fields_data fields :
  forallb (fun kv => json_field (snd kv)) fields = true ->
  json_data (VObj (List.filter defined_field fields)) = true.
Proof.
  cbn [json_data]. induction fields as [|[k v] fields IH]; [reflexivity|].
  cbn [forallb snd]. intros [Hv Hf]%andb_prop.
  specialize (IH Hf). unfold json_field in Hv.
  destruct v; try discriminate Hv; simpl in Hv |- *;
    rewrite ?Hv; exact IH.
Qed.

Lemma json_field_cases k v :
  json_field v = true ->
  (v = VUndefined /\ defined_field (k, v) = false) \/ defined_field (k, v) = true.
Proof. destruct v; intros H; try discriminate H; auto. Qed.

(** Two field lists over the same distinct keys, whose values are
    [undefined] or JSON data, are equal once their defined fields are. *)
Lemma defined_fields_inj fs :
  forall gs,
    map fst fs = map fst gs -> NoDup (map fst fs) ->
    forallb (fun kv => json_field (snd kv)) fs = true ->
    forallb (fun kv => json_field (snd kv)) gs = true ->
    List.filter defined_field fs = List.filter defined_field gs ->
    fs = gs.
Proof.
  induction fs as [|[k v] fs IH]; intros [|[k' w] gs] Hkeys Hnd Hfs Hgs Heq;
    try discriminate Hkeys; [reflexivity|].
  cbn [map fst] in Hkeys. injection Hkeys as <- Hkeys.
  cbn [map fst] in Hnd. apply NoDup_cons in Hnd as [Hk Hnd].
  cbn [forallb snd] in Hfs, Hgs.
  apply andb_prop in Hfs as [Hv Hfs]. apply andb_prop in Hgs as [Hw Hgs].
  assert (Hin : forall u hs, map fst fs = map fst hs ->
                  ~ In (k, u) (List.filter defined_field hs)).
  { intros u hs Hmap [Hin _]%filter_In.
    apply Hk. rewrite Hmap. apply list_elem_of_In.
    exact (in_map fst hs (k, u) Hin). }
  cbn [List.filter] in Heq.
  destruct (json_field_cases k v Hv) as [[-> Dv]|Dv],
           (json_field_cases k w Hw) as [[-> Dw]|Dw];
    rewrite ?Dv, ?Dw in Heq.
  - f_equal. exact (IH gs Hkeys Hnd Hfs Hgs Heq).
  - exfalso. apply (Hin w fs eq_refl). rewrite Heq. left. reflexivity.
  - exfalso. apply (Hin v gs Hkeys). rewrite <- Heq. left. reflexivity.
  - injection Heq as -> Heq. f_equal. exact (IH gs Hkeys Hnd Hfs Hgs Heq).
Qed.

Lemma config_keys props :
  exists fields,
    getConfig props = VObj fields
    /\ map fst fields =
       ["url"; "method"; "headers"; "params"; "data"; "timeout"; "auth";
        "responseType"; "xsrfCookieName"; "xsrfHeaderName"; "tag"]%string.
Proof. eexists. split; reflexivity. Qed.

(** On configurations whose fields are [undefined] or JSON data, the
    JSON text decides equality. *)
Lemma config_text_inj props prevProps :
  json_config (getConfig props) = true ->
  json_config (getConfig prevProps) = true ->
  JSON_stringify (getConfig props) = JSON_stringify (getConfig prevProps) ->
  getConfig props = getConfig prevProps.
Proof.
  destruct (config_keys props) as (fs & -> & Hfs).
  destruct (config_keys prevProps) as (gs & -> & Hgs).
  cbn [json_config]. intros Hp Hq Heq.
  rewrite <- (JSON_stringify_defined fs), <- (JSON_stringify_defined gs) in Heq.
  apply JSON_stringify_inj in Heq;
    [|exact (defined_fields_data fs Hp)|exact (defined_fields_data gs Hq)].
  injection Heq as Heq. f_equal.
  apply (defined_fields_inj fs gs); [congruence| |exact Hp|exact Hq|exact Heq].
  rewrite Hfs. apply (bool_decide_unpack _). vm_compute. exact I.
Qed.

(** ** The transitions of the component *)

Lemma Math_round_100_is_2 (s : Z) : Math_round s 100 = 2 <-> 150 <= s <= 249.
Proof.
  unfold Math_round.
  pose proof (Z.div_mod (2 * s + 100) (2 * 100) ltac:(lia)) as Hdm.
  pose proof (Z.mod_pos_bound (2 * s + 100) (2 * 100) ltac:(lia)) as Hb.
  split; intros H; lia.
Qed.

Lemma fire_then_response props r st :
  fire_then props (Some r) st =
  if Math_round (r_status r) 100 =? 2
  then (Normal tt, merge st (success_patch (RespTransport r)),
        SetState (success_patch (RespTransport r))
          :: maybe_call OnSuccess (p_onSuccess props) (ArgResponse (RespTransport r)))
  else (Normal tt, merge st (failure_patch (RespTransport r)),
        SetState (failure_patch (RespTransport r))
          :: maybe_call OnFailure (p_onFailure props) (ArgResponse (RespTransport r))).
Proof.
  unfold fire_then.
  destruct (Math_round (r_status r) 100 =? 2);
    unfold setState, onSuccess, onFailure, bind, get_state, call, emit;
    [destruct (p_onSuccess props) | destruct (p_onFailure props)]; reflexivity.
Qed.

Lemma fire_catch_error props err st :
  fire_catch props err st =
  (Throw (InvariantViolation (FormatStackOf err)), merge st (error_patch err),
   SetState (error_patch err)
     :: maybe_call OnError (p_onError props) (ArgError (Some err))).
Proof.
  unfold fire_catch, bind, setState, onError, get_state, call, emit, invariant, throw.
  destruct (p_onError props); reflexivity.
Qed.

Lemma fire_cache_hit props context c st :
  getCachedResponse props context = Some c ->
  fire props context st =
  (Normal tt, merge st (success_patch (RespCached c)),
   SetState (success_patch (RespCached c))
     :: maybe_call OnSuccess (p_onSuccess props) (ArgResponse (RespCached c))).
Proof.
  intros Hhit. unfold fire. rewrite Hhit.
  unfold setState, onSuccess, bind, get_state, call, emit.
  destruct (p_onSuccess props); reflexivity.
Qed.

Lemma fire_cache_miss props context st :
  getCachedResponse props context = None ->
  fire props context st =
  (Normal tt, merge st start_patch,
   SetState start_patch :: maybe_call OnStart (p_onStart props) NoArg
     ++ [Request (remove_undefined_keys (getConfig props))]).
Proof.
  intros Hmiss. unfold fire. rewrite Hmiss.
  unfold setState, bind, emit.
  destruct (p_onStart props); reflexivity.
Qed.

Lemma interceptor_cases props context r st :
  cacheResponseInterceptor props context r st =
  match p_cache props with
  | None => (Normal (Some r), st, [])
  | Some _ =>
      if cacheable r then
        match store context, p_tag props with
        | None, _ =>
            (Throw (InvariantViolation
                      (FormatText "caching is only available when store is configured")),
             st, [])
        | Some _, None =>
            (Throw (InvariantViolation
                      (FormatText "tag property is required for caching")), st, [])
        | Some _, Some _ => (Normal (Some r), st, [Dispatch (cache_action props r)])
        end
      else (Normal None, st, [])
  end.
Proof.
  unfold cacheResponseInterceptor, cacheable, cache_action.
  destruct (p_cache props) as [d|]; [|reflexivity].
  destruct (indexOf cacheableMethods (toLowerCase (r_method r)) =? -1); [reflexivity|].
  destruct (store context), (p_tag props); reflexivity.
Qed.

(** Closes a case of [settle_shape]: [pre] are the events before the final
    [setState], [name] the callback of that transition. *)
Ltac settle_case pre name :=
  eexists; exists pre; eexists; exists name; eexists;
  split; [reflexivity | split; [constructor | reflexivity]].

Lemma settle_shape props context o st :
  exists c pre p name arg,
    settle props context o st =
      (c, merge st p, pre ++ SetState p :: maybe_call name (callback props name) arg)
    /\ settled p name arg
    /\ forallb is_dispatch pre = true.
Proof.
  unfold settle, try_catch, bind.
  destruct o as [r|err].
  - rewrite interceptor_cases.
    destruct (p_cache props) as [d|].
    + destruct (cacheable r).
      * destruct (store context) as [s|].
        -- destruct (p_tag props) as [t|].
           ++ rewrite fire_then_response.
              destruct (Math_round (r_status r) 100 =? 2).
              ** settle_case [Dispatch (cache_action props r)] OnSuccess.
              ** settle_case [Dispatch (cache_action props r)] OnFailure.
           ++ rewrite fire_catch_error. settle_case (@nil Event) OnError.
        -- rewrite fire_catch_error. settle_case (@nil Event) OnError.
      * cbn [fire_then throw]. rewrite fire_catch_error.
        settle_case (@nil Event) OnError.
    + rewrite fire_then_response.
      destruct (Math_round (r_status r) 100 =? 2).
      * settle_case (@nil Event) OnSuccess.
      * settle_case (@nil Event) OnFailure.
  - cbn [throw]. rewrite fire_catch_error. settle_case (@nil Event) OnError.
Qed.

Lemma no_request_in_calls name f arg : existsb is_request (maybe_call name f arg) = false.
Proof. destruct f; reflexivity. Qed.

Lemma fire_invocation_hit props context c o st :
  getCachedResponse props context = Some c ->
  fire_invocation props context o st = fire props context st.
Proof.
  intros Hhit. unfold fire_invocation. rewrite (fire_cache_hit _ _ c) by exact Hhit.
  cbn [existsb is_request orb]. rewrite no_request_in_calls. reflexivity.
Qed.

Lemma fire_invocation_miss props context o st :
  getCachedResponse props context = None ->
  fire_invocation props context o st =
  (completion_of (settle props context o (merge st start_patch)),
   state_of (settle props context o (merge st start_patch)),
   (SetState start_patch :: maybe_call OnStart (p_onStart props) NoArg
      ++ [Request (remove_undefined_keys (getConfig props))])
   ++ events_of (settle props context o (merge st start_patch))).
Proof.
  intros Hmiss. unfold fire_invocation. rewrite fire_cache_miss by exact Hmiss.
  cbn [existsb is_request orb]. rewrite existsb_app. cbn [existsb is_request].
  rewrite orb_true_r.
  destruct (settle props context o (merge st start_patch)) as [[c2 st2] evs2].
  reflexivity.
Qed.

Section Observations.

Lemma statuses_app evs1 evs2 : statuses (evs1 ++ evs2) = statuses evs1 ++ statuses evs2.
Proof. apply omap_app. Qed.

Lemma outcome_calls_app evs1 evs2 :
  outcome_calls (evs1 ++ evs2) = outcome_calls evs1 ++ outcome_calls evs2.
Proof. apply omap_app. Qed.

Lemma requests_made_app evs1 evs2 :
  requests_made (evs1 ++ evs2) = requests_made evs1 ++ requests_made evs2.
Proof. apply omap_app. Qed.

Lemma patches_app evs1 evs2 : patches (evs1 ++ evs2) = patches evs1 ++ patches evs2.
Proof. apply omap_app. Qed.

Lemma dispatch_only pre :
  forallb is_dispatch pre = true ->
  statuses pre = [] /\ outcome_calls pre = [] /\ requests_made pre = [] /\ patches pre = [].
Proof.
  induction pre as [|ev pre IH]; [easy|].
  cbn [forallb]. intros [Hev Hpre]%andb_prop.
  destruct ev; try discriminate Hev. exact (IH Hpre).
Qed.

Lemma maybe_call_silent name f arg :
  statuses (maybe_call name f arg) = []
  /\ requests_made (maybe_call name f arg) = []
  /\ patches (maybe_call name f arg) = [].
Proof. destruct f; easy. Qed.

Lemma outcome_calls_maybe_call name f arg :
  outcome_calls (maybe_call name f arg) =
  match name with
  | OnStart => []
  | _ => if defined f then [name] else []
  end.
Proof. destruct f, name; reflexivity. Qed.

End Observations.

Lemma settled_status p name arg st :
  settled p name arg ->
  terminal (s_status (merge st p)) = true
  /\ callback_for (s_status (merge st p)) = Some name
  /\ patch_status p = Some (s_status (merge st p))
  /\ name <> OnStart.
Proof. intros []; repeat split; discriminate. Qed.

Lemma settled_framed p name arg : settled p name arg -> framed p.
Proof. intros []; repeat split; (discriminate || (left; reflexivity) || (right; reflexivity)). Qed.

Lemma settled_frame p name arg st :
  settled p name arg ->
  s_tag (merge st p) = s_tag st
  /\ (s_status (merge st p) <> ERROR -> s_error (merge st p) = s_error st)
  /\ (s_status (merge st p) = ERROR -> s_response (merge st p) = s_response st).
Proof. intros []; repeat split; intros; (reflexivity || discriminate || contradiction). Qed.

(** The [.then] handler sets SUCCESS exactly for the status codes 150 to 249,
    and FAILURE for every other one. *)
Lemma fire_then_status props r st :
  s_status (state_of (fire_then props (Some r) st)) =
  if bool_decide (150 <= r_status r <= 249) then SUCCESS else FAILURE.
Proof.
  rewrite fire_then_response.
  destruct (Z.eqb_spec (Math_round (r_status r) 100) 2) as [H|H];
    rewrite Math_round_100_is_2 in H.
  - rewrite bool_decide_eq_true_2 by exact H. reflexivity.
  - rewrite bool_decide_eq_false_2 by exact H. reflexivity.
Qed.

Lemma componentDidUpdate_same_json props context prevProps st :
  JSON_stringify (getConfig props) = JSON_stringify (getConfig prevProps) ->
  componentDidUpdate props context prevProps st = no_op st.
Proof.
  intros Heq. unfold componentDidUpdate.
  rewrite bool_decide_eq_true_2 by exact Heq. reflexivity.
Qed.

Lemma componentDidUpdate_other_json props context prevProps st :
  JSON_stringify (getConfig props) <> JSON_stringify (getConfig prevProps) ->
  componentDidUpdate props context prevProps st =
  if p_defer props then no_op st else fire props context st.
Proof.
  intros Hne. unfold componentDidUpdate.
  rewrite bool_decide_eq_false_2 by exact Hne.
  destruct (p_defer props); reflexivity.
Qed.

(** ** Claim C1: classification of a resolved response *)

(** The scenario of the specification: mounted with [{url, method, tag}] and
    no store, the transport resolving with status 200, the component goes
    INIT, START, SUCCESS and calls [onSuccess] once. *)
Example mount_scenario :
  let st0 := constructor sample_props in
  let mounted := componentDidMount sample_props no_store st0 in
  let settled := settle sample_props no_store (Resolved (sample_response 200 "get"))
                   (state_of mounted) in
  s_status st0 = INIT
  /\ statuses (events_of mounted ++ events_of settled) = [START; SUCCESS]
  /\ outcome_calls (events_of mounted ++ events_of settled) = [OnSuccess]
  /\ dispatched (events_of mounted ++ events_of settled) = [].
Proof. vm_compute. repeat split; reflexivity. Qed.

(** Claim C1, evaluated on the code at the status code 250: the request of
    [sample_props], with no store and no caching, resolved with status 250,
    goes START then FAILURE and calls [onFailure], not [onSuccess], although
    250 lies in 200..299 and 250 divided by 100 is 2. *)
Theorem status_250_is_classified_FAILURE :
  let run := fire_invocation sample_props no_store
               (Resolved (sample_response 250 "get")) (constructor sample_props) in
  statuses (events_of run) = [START; FAILURE]
  /\ outcome_calls (events_of run) = [OnFailure]
  /\ s_status (state_of run) = FAILURE
  /\ 250 / 100 = 2.
Proof. vm_compute. repeat split; reflexivity. Qed.

(** ** Claim C2: the order of the transitions of one [fire()] *)

(** Claim C2, refuted as stated: with a cached response under the tag, the
    invocation sets SUCCESS at once, and its status sequence is not START
    followed by a terminal status. *)
Lemma cache_hit_skips_START :
  ~ START_then_terminal
      (statuses (events_of (fire_invocation sample_props store_with_T
                              (Resolved (sample_response 200 "get"))
                              (constructor sample_props)))).
Proof.
  intros (t & _ & Heq). vm_compute in Heq. discriminate Heq.
Qed.

(** Claim C2, amended: on a cache miss the status sequence of one
    invocation is START followed by exactly one of SUCCESS, FAILURE and
    ERROR, whatever the settlement of the transport call; on a cache hit it
    is SUCCESS alone. *)
Theorem fire_status_sequence props context o st :
  match getCachedResponse props context with
  | None =>
      START_then_terminal (statuses (events_of (fire_invocation props context o st)))
  | Some _ =>
      statuses (events_of (fire_invocation props context o st)) = [SUCCESS]
  end.
Proof.
  destruct (getCachedResponse props context) as [c|] eqn:Hc.
  - rewrite (fire_invocation_hit _ _ c) by exact Hc.
    rewrite (fire_cache_hit _ _ c) by exact Hc.
    unfold events_of. cbn [snd]. change (SetState ?p :: ?l) with ([SetState p] ++ l).
    rewrite statuses_app.
    destruct (maybe_call_silent OnSuccess (p_onSuccess props)
                (ArgResponse (RespCached c))) as (-> & _).
    reflexivity.
  - rewrite fire_invocation_miss by exact Hc.
    destruct (settle_shape props context o (merge st start_patch))
      as (c & pre & p & name & arg & -> & Hp & Hpre).
    destruct (settled_status p name arg (merge st start_patch) Hp) as (Ht & _ & Hs & _).
    exists (s_status (merge (merge st start_patch) p)). split; [exact Ht|].
    unfold events_of. cbn [snd].
    change (SetState start_patch :: ?l) with ([SetState start_patch] ++ l).
    change (SetState p :: ?l) with ([SetState p] ++ l).
    rewrite !statuses_app.
    destruct (dispatch_only pre Hpre) as (-> & _).
    destruct (maybe_call_silent OnStart (p_onStart props) NoArg) as (-> & _).
    destruct (maybe_call_silent name (callback props name) arg) as (-> & _).
    cbn. rewrite Hs. reflexivity.
Qed.

(** ** Claim C3: the response interceptor on a method that is not cacheable *)

(** Claim C3, evaluated on the code for a [delete] response with
    [cache=5000] and [tag="a"]: the interceptor dispatches nothing, but it
    returns [undefined] and not the response; the [.then] handler then fails
    on [response.status], and the invocation ends in ERROR with a
    [TypeError] and a call of [onError]. *)
Theorem delete_response_is_not_forwarded :
  let props := caching_props "delete" (Some "a"%string) (Some 5000) in
  let r := sample_response 200 "delete" in
  let run := fire_invocation props store_with_T (Resolved r) (constructor props) in
  cacheResponseInterceptor props store_with_T r (constructor props)
    = (Normal None, constructor props, [])
  /\ dispatched (events_of run) = []
  /\ statuses (events_of run) = [START; ERROR]
  /\ s_error (state_of run) = Some (TypeError "cannot read properties of undefined")
  /\ outcome_calls (events_of run) = [OnError].
Proof. vm_compute. repeat split; reflexivity. Qed.

(** A response to [get] with [cache=5000] and [tag="a"] produces the one
    write intent, and is forwarded. *)
Example get_response_is_cached :
  let props := caching_props "get" (Some "a"%string) (Some 5000) in
  let r := sample_response 200 "get" in
  cacheResponseInterceptor props store_with_T r (constructor props)
  = (Normal (Some r), constructor props,
     [Dispatch {| a_type := "CACHE_REQUEST"; payload_tag := Some "a"%string;
                  payload_response := {| c_data := r_data r; c_status := 200 |};
                  payload_timeout := Some 5000 |}]).
Proof. reflexivity. Qed.

(** ** Claim C4: cache configured without a tag *)

(** Claim C4, refuted as stated: with [cache=1000] and no tag, [fire()]
    returns normally after issuing the transport call, and the invocation
    followed to its end has made that call. *)
Lemma untagged_cache_reaches_the_transport :
  let props := caching_props "get" None (Some 1000) in
  ~ asserts_before_transport (fire props store_with_T (constructor props))
  /\ ~ asserts_before_transport
         (fire_invocation props store_with_T (Resolved (sample_response 200 "get"))
            (constructor props)).
Proof.
  cbn zeta. split; intros (_ & Hreq); vm_compute in Hreq; discriminate Hreq.
Qed.

(** Claim C4, amended: with a cache duration and no tag, [fire()] on a cache
    miss issues the transport call and raises nothing; the assertion comes
    afterwards, in the response interceptor, when the response to a [head],
    [get] or [post] request arrives: it raises the invariant violation about
    the tag (about the store, when no store is configured), writes nothing
    to the cache, and the controller records ERROR. *)
Theorem untagged_cache_asserts_in_the_interceptor props context r st d :
  p_cache props = Some d ->
  p_tag props = None ->
  getCachedResponse props context = None ->
  cacheable r = true ->
  completion_of (fire props context st) = Normal tt
  /\ requests_made (events_of (fire props context st))
     = [remove_undefined_keys (getConfig props)]
  /\ (forall st1,
        cacheResponseInterceptor props context r st1 =
          (Throw (InvariantViolation
                    (FormatText (if defined (store context)
                                 then "tag property is required for caching"
                                 else "caching is only available when store is configured"))),
           st1, [])
        /\ s_status (state_of (settle props context (Resolved r) st1)) = ERROR
        /\ dispatched (events_of (settle props context (Resolved r) st1)) = []).
Proof.
  intros Hcache Htag Hmiss Hcacheable.
  rewrite fire_cache_miss by exact Hmiss.
  split; [reflexivity|]. split.
  - unfold events_of. cbn [snd].
    change (SetState start_patch :: ?l) with ([SetState start_patch] ++ l).
    rewrite !requests_made_app.
    destruct (maybe_call_silent OnStart (p_onStart props) NoArg) as (_ & -> & _).
    reflexivity.
  - intros st1.
    assert (Hi : cacheResponseInterceptor props context r st1 =
                 (Throw (InvariantViolation
                    (FormatText (if defined (store context)
                                 then "tag property is required for caching"
                                 else "caching is only available when store is configured"))),
                  st1, [])).
    { rewrite interceptor_cases, Hcache, Hcacheable, Htag.
      destruct (store context); reflexivity. }
    split; [exact Hi|].
    unfold settle, try_catch, bind. rewrite Hi, fire_catch_error.
    unfold state_of, events_of. cbn [fst snd app]. split; [reflexivity|].
    destruct (p_onError props); reflexivity.
Qed.

Lemma untagged_cache_asserts_in_the_interceptor_witness :
  let props := caching_props "get" None (Some 1000) in
  let r := sample_response 200 "get" in
  p_cache props = Some 1000 /\ p_tag props = None
  /\ getCachedResponse props store_with_T = None /\ cacheable r = true
  /\ cacheResponseInterceptor props store_with_T r (constructor props) =
       (Throw (InvariantViolation (FormatText "tag property is required for caching")),
        constructor props, []).
Proof.
  cbn zeta. repeat (split; [reflexivity|]).
  destruct (untagged_cache_asserts_in_the_interceptor
              (caching_props "get" None (Some 1000)) store_with_T
              (sample_response 200 "get") (constructor (caching_props "get" None (Some 1000)))
              1000 eq_refl eq_refl eq_refl eq_refl) as (_ & _ & H).
  destruct (H (constructor (caching_props "get" None (Some 1000)))) as (Hi & _).
  exact Hi.
Defined.

(** ** Claim C5: cache hit *)

(** Claim C5: when the store holds, under the tag [t] of the request, an
    entry whose response is [c], [fire()] sets SUCCESS with exactly [c] as
    the response, calls [onSuccess] with [c] if it is registered, and issues
    no transport call; the invocation ends there. *)
Theorem cache_hit_short_circuits props context (s : Store) (t : string)
    (e : CacheEntry) (c : CachedResponse) o st :
  store context = Some s ->
  p_tag props = Some t ->
  requests s !! t = Some e ->
  entry_response e = Some c ->
  fire props context st =
    (Normal tt,
     {| s_status := SUCCESS; s_response := RespCached c;
        s_error := s_error st; s_tag := s_tag st |},
     SetState (success_patch (RespCached c))
       :: maybe_call OnSuccess (p_onSuccess props) (ArgResponse (RespCached c)))
  /\ fire_invocation props context o st = fire props context st
  /\ requests_made (events_of (fire_invocation props context o st)) = [].
Proof.
  intros Hstore Htag Hentry Hresp.
  assert (Hhit : getCachedResponse props context = Some c).
  { unfold getCachedResponse, property_key. rewrite Hstore, Htag.
    change (default "undefined"%string (Some t)) with t.
    rewrite Hentry. exact Hresp. }
  rewrite (fire_invocation_hit _ _ c) by exact Hhit.
  rewrite (fire_cache_hit _ _ c) by exact Hhit.
  repeat split.
  unfold events_of. cbn [snd requests_made omap].
  apply (maybe_call_silent OnSuccess).
Qed.

Lemma cache_hit_short_circuits_witness :
  store store_with_T = Some stored_T
  /\ p_tag sample_props = Some "T"%string
  /\ requests stored_T !! "T"%string = Some {| entry_response := Some cached_X |}
  /\ fire sample_props store_with_T (constructor sample_props) =
       (Normal tt,
        {| s_status := SUCCESS; s_response := RespCached cached_X;
           s_error := None; s_tag := Some "T"%string |},
        [SetState (success_patch (RespCached cached_X));
         Call OnSuccess 2%nat (ArgResponse (RespCached cached_X))])
  /\ requests_made
       (events_of (fire_invocation sample_props store_with_T
                     (Rejected (Fault "Error" "unused")) (constructor sample_props)))
     = [].
Proof.
  do 3 (split; [reflexivity|]).
  destruct (cache_hit_short_circuits sample_props store_with_T stored_T "T"
              {| entry_response := Some cached_X |} cached_X
              (Rejected (Fault "Error" "unused")) (constructor sample_props)
              eq_refl eq_refl eq_refl eq_refl) as (Hfire & _ & Hnone).
  split; [exact Hfire|exact Hnone].
Defined.

(** The lookup is by the store and by the tag: the same request finds
    nothing without a store, and a request under another tag finds nothing
    in the store that holds a response under ["T"]. *)
Example cache_miss_without_store_or_under_another_tag :
  requests_made (events_of (fire sample_props no_store (constructor sample_props)))
    = [remove_undefined_keys (getConfig sample_props)]
  /\ requests_made
       (events_of (fire (caching_props "get" (Some "other"%string) None) store_with_T
                     (constructor sample_props)))
     = [remove_undefined_keys (getConfig (caching_props "get" (Some "other"%string) None))].
Proof. split; reflexivity. Qed.

(** ** Claim C6: an update with an equal configuration *)

(** Claim C6, refuted as stated: the headers [{a:1, b:2}] and [{b:2, a:1}]
    are deeply equal, and so are the two configurations, yet the update is
    not a no-op: it runs [fire()], which issues a transport call. *)
Lemma reordered_headers_fire_again :
  let prevProps := request_with (VObj [("a", VNum 1); ("b", VNum 2)]%string)
                     VUndefined false None None in
  let props := request_with (VObj [("b", VNum 2); ("a", VNum 1)]%string)
                 VUndefined false None None in
  let st := constructor props in
  deep_equal (getConfig props) (getConfig prevProps) = true
  /\ componentDidUpdate props no_store prevProps st <> no_op st
  /\ componentDidUpdate props no_store prevProps st = fire props no_store st
  /\ length (requests_made (events_of (componentDidUpdate props no_store prevProps st)))
     = 1%nat.
Proof.
  cbn zeta. split; [vm_compute; reflexivity|].
  split; [intros H; vm_compute in H; discriminate H|].
  split; vm_compute; reflexivity.
Qed.

(** Claim C6, amended: when the two extracted configurations are the same
    value, the properties of every nested object in the same order, the
    update is a no-op: no [fire()], the state is untouched and nothing is
    called, whatever the callbacks, the cache duration and the deferred flag
    of the two parameter sets. *)
Theorem equal_config_is_a_no_op props context prevProps st :
  getConfig props = getConfig prevProps ->
  componentDidUpdate props context prevProps st = no_op st.
Proof.
  intros Heq. apply componentDidUpdate_same_json. rewrite Heq. reflexivity.
Qed.

Lemma equal_config_is_a_no_op_witness :
  let prevProps := request_with (VObj [("a", VNum 1)]%string) VNull true
                     (Some 1%nat) (Some 2%nat) in
  let props := request_with (VObj [("a", VNum 1)]%string) VNull false
                 (Some 7%nat) None in
  getConfig props = getConfig prevProps
  /\ componentDidUpdate props no_store prevProps (constructor props)
     = no_op (constructor props).
Proof.
  cbn zeta. split; [reflexivity|].
  apply (equal_config_is_a_no_op
           (request_with (VObj [("a", VNum 1)]%string) VNull false (Some 7%nat) None)
           no_store
           (request_with (VObj [("a", VNum 1)]%string) VNull true (Some 1%nat) (Some 2%nat))).
  reflexivity.
Defined.

(** ** Claim C7: an update with a changed configuration *)

(** Claim C7, refuted as stated: the params [{q: undefined}] and [{}] differ
    (they are not deeply equal, and neither are the two configurations), the
    request is not deferred, and yet the update fires nothing. *)
Lemma undefined_param_is_no_change :
  let prevProps := request_with VUndefined (VObj []) false None None in
  let props := request_with VUndefined (VObj [("q", VUndefined)]%string)
                 false None None in
  let st := constructor props in
  deep_equal (getConfig props) (getConfig prevProps) = false
  /\ getConfig props <> getConfig prevProps
  /\ p_defer props = false
  /\ componentDidUpdate props no_store prevProps st = no_op st
  /\ componentDidUpdate props no_store prevProps st <> fire props no_store st.
Proof.
  cbn zeta. split; [vm_compute; reflexivity|].
  split; [intros H; vm_compute in H; discriminate H|].
  split; [reflexivity|].
  split; [vm_compute; reflexivity|].
  intros H; vm_compute in H; discriminate H.
Qed.

(** Claim C7, amended: when every whitelisted field of the two parameter
    sets is [undefined] or JSON data (null, a boolean, an integer, a string,
    an array or an object of JSON data) and the two extracted configurations
    differ, the update runs [fire()] exactly once if the request is not
    deferred, and does nothing if it is deferred. *)
Theorem changed_config_fires_once props context prevProps st :
  json_config (getConfig props) = true ->
  json_config (getConfig prevProps) = true ->
  getConfig props <> getConfig prevProps ->
  componentDidUpdate props context prevProps st =
  if p_defer props then no_op st else fire props context st.
Proof.
  intros Hp Hq Hne. apply componentDidUpdate_other_json.
  intros Heq. apply Hne. exact (config_text_inj props prevProps Hp Hq Heq).
Qed.

Lemma changed_config_fires_once_witness :
  let prevProps := request_with VUndefined (VObj [("q", VStr "a")]%string)
                     false None None in
  let props := request_with VUndefined (VObj [("q", VStr "b")]%string)
                 false None None in
  json_config (getConfig props) = true
  /\ json_config (getConfig prevProps) = true
  /\ getConfig props <> getConfig prevProps
  /\ componentDidUpdate props no_store prevProps (constructor props)
     = fire props no_store (constructor props).
Proof.
  cbn zeta.
  assert (Hne : getConfig (request_with VUndefined
                   (VObj [("q", VStr "b")]%string) false None None)
                <> getConfig (request_with VUndefined
                   (VObj [("q", VStr "a")]%string) false None None)).
  { intros H. discriminate H. }
  split; [reflexivity|]. split; [reflexivity|]. split; [exact Hne|].
  exact (changed_config_fires_once
           (request_with VUndefined (VObj [("q", VStr "b")]%string) false None None)
           no_store
           (request_with VUndefined (VObj [("q", VStr "a")]%string) false None None)
           _ eq_refl eq_refl Hne).
Defined.

(** The same change of [params] on a deferred request fires nothing. *)
Example changed_config_deferred_example :
  let prevProps := request_with VUndefined (VObj [("q", VStr "a")]%string)
                     true None None in
  let props := request_with VUndefined (VObj [("q", VStr "b")]%string)
                 true None None in
  componentDidUpdate props no_store prevProps (constructor props)
  = no_op (constructor props).
Proof. vm_compute. reflexivity. Qed.

(** ** Claim C8: one callback for one outcome *)

(** Claim C8: every invocation of [fire()], followed to its end, finishes
    in SUCCESS, FAILURE or ERROR, and the calls of [onSuccess], [onFailure]
    and [onError] it made are exactly one call, of the callback that belongs
    to the final status, when that callback is registered (and none when it
    is not). *)
Theorem exactly_one_outcome_callback props context o st :
  exists name,
    callback_for (s_status (state_of (fire_invocation props context o st))) = Some name
    /\ outcome_calls (events_of (fire_invocation props context o st)) =
       if defined (callback props name) then [name] else [].
Proof.
  destruct (getCachedResponse props context) as [c|] eqn:Hc.
  - rewrite (fire_invocation_hit _ _ c) by exact Hc.
    rewrite (fire_cache_hit _ _ c) by exact Hc.
    exists OnSuccess. split; [reflexivity|].
    unfold events_of. cbn [snd outcome_calls omap].
    apply (outcome_calls_maybe_call OnSuccess).
  - rewrite fire_invocation_miss by exact Hc.
    destruct (settle_shape props context o (merge st start_patch))
      as (c & pre & p & name & arg & -> & Hp & Hpre).
    destruct (settled_status p name arg (merge st start_patch) Hp) as (_ & Hn & _ & Hne).
    exists name. split; [exact Hn|].
    unfold events_of. cbn [snd].
    change (SetState start_patch :: ?l) with ([SetState start_patch] ++ l).
    change (SetState p :: ?l) with ([SetState p] ++ l).
    rewrite !outcome_calls_app.
    destruct (dispatch_only pre Hpre) as (_ & -> & _).
    rewrite !outcome_calls_maybe_call.
    destruct name; [contradiction| | |]; reflexivity.
Qed.

(** ** Claim C9: transport failure *)

(** Claim C9, refuted as stated: what the [.catch] handler throws for a
    rejection with a network error is not that error; it is the invariant
    violation that [invariant(false, err.stack)] makes. *)
Lemma rejection_raises_a_new_error :
  let err := Fault "Error" "Network Error" in
  let run := settle sample_props no_store (Rejected err) (constructor sample_props) in
  completion_of run <> Throw err
  /\ completion_of run = Throw (InvariantViolation (FormatStackOf err)).
Proof.
  cbn zeta. split; [intros H; vm_compute in H; discriminate H|reflexivity].
Qed.

(** Claim C9, amended: when the promise of the transport is rejected with
    [err], the controller sets ERROR with [err] in the error field (the
    response is kept), calls [onError] with [err] if it is registered, and
    after that the [.catch] handler throws, not [err] itself, but a new
    invariant violation whose message is the stack of [err]; so a fault
    leaves the handler after the state is recorded and the rejection is not
    swallowed. *)
Theorem rejection_is_recorded_then_escalated props context err st :
  settle props context (Rejected err) st =
  (Throw (InvariantViolation (FormatStackOf err)),
   {| s_status := ERROR; s_response := s_response st;
      s_error := Some err; s_tag := s_tag st |},
   SetState (error_patch err)
     :: maybe_call OnError (p_onError props) (ArgError (Some err))).
Proof.
  unfold settle, try_catch. cbn [throw]. rewrite fire_catch_error. reflexivity.
Qed.

(** ** Claim C10: frame of the transitions *)

(** Claim C10: a transition writes the status and the one field it
    carries.  After one invocation of [fire()] followed to its end, the tag
    of the state is the one it had; the error is the one it had when the
    final status is SUCCESS or FAILURE (cache hit included); the response is
    the one it had when the final status is ERROR; no [setState] of the
    invocation writes the tag or writes [null].  The START transition keeps
    both the response and the error.  The constructor takes the tag of the
    state from the props, and an update of the props, whatever the new tag,
    leaves the tag of the state as it was. *)
Theorem transitions_keep_the_other_fields props context st :
  (forall o,
      let st' := state_of (fire_invocation props context o st) in
      s_tag st' = s_tag st
      /\ (s_status st' = SUCCESS \/ s_status st' = FAILURE -> s_error st' = s_error st)
      /\ (s_status st' = ERROR -> s_response st' = s_response st)
      /\ Forall framed (patches (events_of (fire_invocation props context o st))))
  /\ (getCachedResponse props context = None ->
      state_of (fire props context st) =
      {| s_status := START; s_response := s_response st;
         s_error := s_error st; s_tag := s_tag st |})
  /\ (forall prevProps,
         s_tag (state_of (componentDidUpdate props context prevProps st)) = s_tag st)
  /\ s_tag (state_of (componentDidMount props context st)) = s_tag st
  /\ s_tag (constructor props) = p_tag props.
Proof.
  assert (Hfire : s_tag (state_of (fire props context st)) = s_tag st).
  { destruct (getCachedResponse props context) as [c|] eqn:Hc.
    - rewrite (fire_cache_hit _ _ c) by exact Hc. reflexivity.
    - rewrite fire_cache_miss by exact Hc. reflexivity. }
  split; [|split; [|split; [|split; [|reflexivity]]]].
  - intros o. cbn zeta.
    destruct (getCachedResponse props context) as [c|] eqn:Hc.
    + rewrite (fire_invocation_hit _ _ c) by exact Hc.
      rewrite (fire_cache_hit _ _ c) by exact Hc.
      unfold state_of, events_of. cbn [fst snd].
      change (SetState ?p :: ?l) with ([SetState p] ++ l). rewrite patches_app.
      destruct (maybe_call_silent OnSuccess (p_onSuccess props)
                  (ArgResponse (RespCached c))) as (_ & _ & ->).
      repeat split; try discriminate.
      cbn. constructor; [|constructor].
      exact (settled_framed _ _ _ (settled_cached c)).
    + rewrite fire_invocation_miss by exact Hc.
      destruct (settle_shape props context o (merge st start_patch))
        as (c & pre & p & name & arg & -> & Hp & Hpre).
      destruct (settled_frame p name arg (merge st start_patch) Hp) as (Htag & Herr & Hresp).
      unfold state_of, events_of. cbn [fst snd].
      split; [rewrite Htag; reflexivity|].
      split; [intros Hs; rewrite Herr; [reflexivity|destruct Hs as [Hs|Hs]; rewrite Hs; discriminate]|].
      split; [intros Hs; rewrite (Hresp Hs); reflexivity|].
      change (SetState start_patch :: ?l) with ([SetState start_patch] ++ l).
      change (SetState p :: ?l) with ([SetState p] ++ l).
      rewrite !patches_app.
      destruct (dispatch_only pre Hpre) as (_ & _ & _ & ->).
      destruct (maybe_call_silent OnStart (p_onStart props) NoArg) as (_ & _ & ->).
      destruct (maybe_call_silent name (callback props name) arg) as (_ & _ & ->).
      cbn. constructor; [|constructor; [|constructor]].
      * repeat split; (discriminate || (left; reflexivity)).
      * exact (settled_framed _ _ _ Hp).
  - intros Hc. rewrite fire_cache_miss by exact Hc. reflexivity.
  - intros prevProps. unfold componentDidUpdate.
    destruct (bool_decide _); [reflexivity|].
    destruct (negb (p_defer props)); [exact Hfire|reflexivity].
  - unfold componentDidMount.
    destruct (negb (p_defer props)); [exact Hfire|reflexivity].
Qed.

Lemma transitions_keep_the_other_fields_witness :
  let st := {| s_status := ERROR; s_response := RespNull;
               s_error := Some (Fault "Error" "Network Error");
               s_tag := Some "first"%string |} in
  let st' := state_of (fire_invocation sample_props no_store
                         (Resolved (sample_response 200 "get")) st) in
  s_status st' = SUCCESS
  /\ s_error st' = Some (Fault "Error" "Network Error")
  /\ s_tag st' = Some "first"%string.
Proof.
  cbn zeta.
  destruct (transitions_keep_the_other_fields sample_props no_store
              {| s_status := ERROR; s_response := RespNull;
                 s_error := Some (Fault "Error" "Network Error");
                 s_tag := Some "first"%string |}) as (Hrun & _).
  destruct (Hrun (Resolved (sample_response 200 "get"))) as (Htag & Herr & _).
  split; [reflexivity|]. split; [|exact Htag].
  apply Herr. left. reflexivity.
Defined.

(** * Part III: further properties of the component *)

(** ** The lookup of the method *)

Lemma indexOf_range (l : list string) (x : string) :
  -1 <= indexOf l x < Z.of_nat (length l).
Proof.
  induction l as [|y l IH]; cbn [indexOf length]; [lia|].
  destruct (String.eqb y x); [lia|].
  destruct (Z.eqb_spec (indexOf l x) (-1)); lia.
Qed.

Lemma indexOf_absent (l : list string) (x : string) :
  indexOf l x = -1 <-> x ∉ l.
Proof.
  induction l as [|y l IH]; cbn [indexOf].
  - split; [intros _; apply not_elem_of_nil|reflexivity].
  - rewrite not_elem_of_cons.
    destruct (String.eqb_spec y x) as [->|Hne].
    + split; [discriminate|intros [H _]; contradiction].
    + pose proof (indexOf_range l x) as Hr.
      destruct (Z.eqb_spec (indexOf l x) (-1)) as [He|He].
      * split; [intros _; split; [congruence|apply IH, He]|reflexivity].
      * split; [lia|intros [_ H]; apply IH in H; contradiction].
Qed.

Lemma cacheable_elem_of (r : TransportResponse) :
  cacheable r = bool_decide (toLowerCase (r_method r) ∈ cacheableMethods).
Proof.
  unfold cacheable.
  destruct (Z.eqb_spec (indexOf cacheableMethods (toLowerCase (r_method r))) (-1))
    as [He|He]; cbn [negb]; symmetry.
  - apply bool_decide_eq_false_2, indexOf_absent, He.
  - apply bool_decide_eq_true_2.
    destruct (decide (toLowerCase (r_method r) ∈ cacheableMethods)) as [Hin|Hout];
      [exact Hin|]. apply indexOf_absent in Hout. contradiction.
Qed.

Lemma toLowerCase_idempotent (s : string) : toLowerCase (toLowerCase s) = toLowerCase s.
Proof.
  induction s as [|c s IH]; [reflexivity|]. cbn [toLowerCase]. rewrite IH. f_equal.
  destruct c as [[] [] [] [] [] [] [] []]; reflexivity.
Qed.

(** ** The settlement of a resolved response, case by case *)

Lemma Math_round_class (s : Z) :
  (Math_round s 100 =? 2) = bool_decide (150 <= s <= 249).
Proof.
  destruct (Z.eqb_spec (Math_round s 100) 2) as [H|H]; rewrite Math_round_100_is_2 in H;
    symmetry; [apply bool_decide_eq_true_2|apply bool_decide_eq_false_2]; exact H.
Qed.

Lemma settle_resolved props context r st :
  settle props context (Resolved r) st =
  match pipeline_fault props context r with
  | None =>
      (Normal tt, merge st (classified_patch r),
       (if defined (p_cache props) then [Dispatch (cache_action props r)] else [])
       ++ SetState (classified_patch r)
            :: maybe_call (classified_name r) (callback props (classified_name r))
                 (ArgResponse (RespTransport r)))
  | Some e =>
      (Throw (InvariantViolation (FormatStackOf e)), merge st (error_patch e),
       SetState (error_patch e)
         :: maybe_call OnError (p_onError props) (ArgError (Some e)))
  end.
Proof.
  unfold settle, try_catch, bind, pipeline_fault, classified_patch, classified_name.
  rewrite interceptor_cases, cacheable_elem_of.
  destruct (p_cache props) as [d|].
  - destruct (bool_decide (toLowerCase (r_method r) ∈ cacheableMethods)).
    + destruct (store context) as [s|]; cbn [defined].
      * destruct (p_tag props) as [t|]; cbn [defined].
        -- rewrite fire_then_response, Math_round_class.
           destruct (bool_decide (150 <= r_status r <= 249)); reflexivity.
        -- rewrite fire_catch_error. reflexivity.
      * rewrite fire_catch_error. reflexivity.
    + cbn [fire_then throw]. rewrite fire_catch_error. reflexivity.
  - rewrite fire_then_response, Math_round_class.
    destruct (bool_decide (150 <= r_status r <= 249)); reflexivity.
Qed.

Lemma settle_rejected props context err st :
  settle props context (Rejected err) st =
  (Throw (InvariantViolation (FormatStackOf err)), merge st (error_patch err),
   SetState (error_patch err)
     :: maybe_call OnError (p_onError props) (ArgError (Some err))).
Proof. unfold settle, try_catch. cbn [throw]. rewrite fire_catch_error. reflexivity. Qed.

(** ** The response interceptor *)

(** Extra X1: the response interceptor dispatches a cache write exactly when
    a cache duration is configured, the lower-cased method of the response
    is [head], [get] or [post], a store is configured and a tag is given;
    the write is then the one action [CACHE_REQUEST] with the tag, the
    [data] and [status] of the response, and the duration.  The status code
    plays no role. *)
Theorem cache_write_condition props context r st :
  dispatched (events_of (cacheResponseInterceptor props context r st)) =
  if defined (p_cache props)
     && bool_decide (toLowerCase (r_method r) ∈ cacheableMethods)
     && defined (store context) && defined (p_tag props)
  then [{| a_type := "CACHE_REQUEST"; payload_tag := p_tag props;
           payload_response := {| c_data := r_data r; c_status := r_status r |};
           payload_timeout := p_cache props |}]
  else [].
Proof.
  rewrite interceptor_cases, cacheable_elem_of. unfold cache_action.
  destruct (p_cache props) as [d|]; [|reflexivity]. cbn [defined andb].
  destruct (bool_decide (toLowerCase (r_method r) ∈ cacheableMethods)); [|reflexivity].
  destruct (store context) as [s|]; [|reflexivity].
  destruct (p_tag props) as [t|]; reflexivity.
Qed.

(** The method is compared without regard to the case of its letters. *)
Example upper_case_method_is_cached :
  dispatched (events_of (cacheResponseInterceptor
                           (caching_props "GET" (Some "a"%string) (Some 5000))
                           store_with_T (sample_response 404 "GET")
                           (constructor sample_props)))
  = [cache_action (caching_props "GET" (Some "a"%string) (Some 5000))
       (sample_response 404 "GET")].
Proof. reflexivity. Qed.

(** Extra X2: the response interceptor never changes the state of the
    component; it returns the response it was given, or it returns
    [undefined] or throws an invariant violation of the source, and in these
    two cases it has dispatched nothing; with no cache duration it returns
    the response and does nothing else. *)
Theorem interceptor_frame props context r st :
  state_of (cacheResponseInterceptor props context r st) = st
  /\ (completion_of (cacheResponseInterceptor props context r st) = Normal (Some r)
      \/ (events_of (cacheResponseInterceptor props context r st) = []
          /\ (completion_of (cacheResponseInterceptor props context r st) = Normal None
              \/ exists text,
                   completion_of (cacheResponseInterceptor props context r st)
                   = Throw (InvariantViolation (FormatText text)))))
  /\ (if defined (p_cache props) then True
      else cacheResponseInterceptor props context r st = (Normal (Some r), st, [])).
Proof.
  rewrite interceptor_cases.
  destruct (p_cache props) as [d|]; cbn [defined].
  - destruct (cacheable r).
    + destruct (store context) as [s|].
      * destruct (p_tag props) as [t|].
        -- split; [reflexivity|]. split; [left; reflexivity|exact I].
        -- split; [reflexivity|]. split; [|exact I].
           right. split; [reflexivity|]. right. eexists. reflexivity.
      * split; [reflexivity|]. split; [|exact I].
        right. split; [reflexivity|]. right. eexists. reflexivity.
    + split; [reflexivity|]. split; [|exact I].
      right. split; [reflexivity|]. left. reflexivity.
  - split; [reflexivity|]. split; [left; reflexivity|reflexivity].
Qed.

(** ** The settlement of the transport call *)

(** Extra X3: a resolved response ends in ERROR exactly when a cache
    duration is configured and the method is not [head], [get] or [post]
    (the error is the [TypeError] of the [.then] handler), or no store is
    configured, or no tag is given (the error is the invariant violation);
    the response in the state is then the old one.  Otherwise the response
    is stored, the error is kept, and the status is SUCCESS for the codes
    150 to 249 and FAILURE for every other code. *)
Theorem resolved_response_outcome props context r st :
  state_of (settle props context (Resolved r) st) =
  match pipeline_fault props context r with
  | None =>
      {| s_status := if bool_decide (150 <= r_status r <= 249) then SUCCESS else FAILURE;
         s_response := RespTransport r;
         s_error := s_error st; s_tag := s_tag st |}
  | Some e =>
      {| s_status := ERROR; s_response := s_response st;
         s_error := Some e; s_tag := s_tag st |}
  end.
Proof.
  rewrite settle_resolved.
  destruct (pipeline_fault props context r) as [e|]; [reflexivity|].
  unfold classified_patch.
  destruct (bool_decide (150 <= r_status r <= 249)); reflexivity.
Qed.

(** Extra X4: the promise chain of [fire()] ends rejected exactly when the
    controller records ERROR.  What it throws is then the invariant
    violation made from the stack of the error now in the state, which is the
    fault of the settlement; when it ends normally the status is SUCCESS or
    FAILURE and the error in the state is the old one. *)
Theorem settle_throws_iff_ERROR props context o st :
  match completion_of (settle props context o st) with
  | Normal _ =>
      outcome_fault props context o = None
      /\ s_status (state_of (settle props context o st)) <> ERROR
      /\ terminal (s_status (state_of (settle props context o st))) = true
      /\ s_error (state_of (settle props context o st)) = s_error st
  | Throw x =>
      exists e,
        outcome_fault props context o = Some e
        /\ x = InvariantViolation (FormatStackOf e)
        /\ s_status (state_of (settle props context o st)) = ERROR
        /\ s_error (state_of (settle props context o st)) = Some e
  end.
Proof.
  destruct o as [r|err]; cbn [outcome_fault].
  - rewrite settle_resolved.
    destruct (pipeline_fault props context r) as [e|].
    + exists e. repeat split.
    + unfold classified_patch.
      destruct (bool_decide (150 <= r_status r <= 249)); repeat split; discriminate.
  - rewrite settle_rejected. exists err. repeat split.
Qed.

(** ** The synchronous part of [fire()] *)

(** Extra X5: [fire()] itself never throws and never writes to the store.
    On a cache hit it makes no transport call and leaves the status at
    SUCCESS; on a miss it makes exactly one, with the configuration of the
    props without its undefined properties, and leaves the status at START. *)
Theorem fire_returns_normally props context st :
  completion_of (fire props context st) = Normal tt
  /\ dispatched (events_of (fire props context st)) = []
  /\ requests_made (events_of (fire props context st)) =
     (if defined (getCachedResponse props context) then []
      else [remove_undefined_keys (getConfig props)])
  /\ s_status (state_of (fire props context st)) =
     (if defined (getCachedResponse props context) then SUCCESS else START).
Proof.
  destruct (getCachedResponse props context) as [c|] eqn:Hc; cbn [defined].
  - rewrite (fire_cache_hit _ _ c) by exact Hc.
    unfold completion_of, events_of, state_of. cbn [fst snd].
    destruct (p_onSuccess props); repeat split.
  - rewrite fire_cache_miss by exact Hc.
    unfold completion_of, events_of, state_of. cbn [fst snd].
    destruct (p_onStart props); repeat split.
Qed.

(** ** The effects of one invocation, in order *)

Lemma events_after_request (a : Event) (m : list Event) (q : Event) (rest : list Event) :
  (a :: m ++ [q]) ++ rest = a :: m ++ q :: rest.
Proof. cbn [app]. rewrite <- app_assoc. reflexivity. Qed.

(** Extra X6: on a cache miss the effects of one invocation, the call of
    [onStart] set apart, come in this order: the transition to START, the
    transport call, the cache write if there is one, the final transition,
    and last the callback of the final status if it is registered, called
    with the response (or, for [onError], the error) that the final state
    holds.  [onStart], if it is registered, is called once and without
    argument; whether that is before or after the transport call is not
    stated. *)
Theorem effects_in_order props context o st :
  getCachedResponse props context = None ->
  exists p name,
    without_onStart (events_of (fire_invocation props context o st)) =
      SetState start_patch
        :: Request (remove_undefined_keys (getConfig props))
        :: cache_writes props context o
        ++ SetState p
        :: maybe_call name (callback props name)
             (callback_arg name (state_of (fire_invocation props context o st)))
    /\ onStart_calls (events_of (fire_invocation props context o st)) =
       match p_onStart props with Some h => [(h, NoArg)] | None => [] end
    /\ callback_for (s_status (state_of (fire_invocation props context o st))) = Some name
    /\ patch_status p = Some (s_status (state_of (fire_invocation props context o st))).
Proof.
  intros Hmiss. rewrite fire_invocation_miss by exact Hmiss.
  unfold events_of, state_of. cbn [fst snd]. rewrite events_after_request.
  destruct o as [r|err]; cbn [cache_writes].
  - rewrite settle_resolved.
    destruct (pipeline_fault props context r) as [e|]; cbn [defined negb fst snd].
    + rewrite andb_false_r. exists (error_patch e), OnError. cbn [callback].
      destruct (p_onStart props), (p_onError props); repeat split.
    + rewrite andb_true_r. exists (classified_patch r), (classified_name r).
      unfold classified_patch, classified_name.
      destruct (bool_decide (150 <= r_status r <= 249)); cbn [callback];
        destruct (p_onStart props), (p_onSuccess props), (p_onFailure props),
                 (p_cache props); repeat split.
  - rewrite settle_rejected. cbn [fst snd].
    exists (error_patch err), OnError. cbn [callback].
    destruct (p_onStart props), (p_onError props); repeat split.
Qed.

Lemma effects_in_order_witness :
  getCachedResponse sample_props no_store = None
  /\ without_onStart
       (events_of (fire_invocation sample_props no_store
                     (Rejected (Fault "Error" "Network Error")) (constructor sample_props)))
     = [SetState start_patch;
        Request (remove_undefined_keys (getConfig sample_props));
        SetState (error_patch (Fault "Error" "Network Error"));
        Call OnError 4%nat (ArgError (Some (Fault "Error" "Network Error")))]
  /\ onStart_calls
       (events_of (fire_invocation sample_props no_store
                     (Rejected (Fault "Error" "Network Error")) (constructor sample_props)))
     = [(1%nat, NoArg)].
Proof.
  split; [reflexivity|].
  destruct (effects_in_order sample_props no_store
              (Rejected (Fault "Error" "Network Error")) (constructor sample_props)
              eq_refl) as (p & name & Hev & Hstart & _ & _).
  split; [reflexivity|exact Hstart].
Defined.

(** ** The cache lookup *)


(** A request without tag is served what the store holds under the key
    ["undefined"]. *)
Example untagged_request_reads_undefined_key :
  getCachedResponse (caching_props "get" None None)
    {| store := Some {| requests :=
         {[ "undefined"%string := {| entry_response := Some cached_X |} ]} |} |}
  = Some cached_X.
Proof. reflexivity. Qed.

(** Extra X8: a cache hit depends on the tag alone.  Two parameter sets with
    the same tag and the same [onSuccess], whatever their url, method, body,
    cache duration, deferred flag and other callbacks, get the same
    [fire()] when the store holds a response under the tag. *)
Theorem cache_hit_depends_on_tag_only props1 props2 context st :
  p_tag props1 = p_tag props2 ->
  p_onSuccess props1 = p_onSuccess props2 ->
  defined (getCachedResponse props1 context) = true ->
  fire props1 context st = fire props2 context st.
Proof.
  intros Htag Hcb Hhit.
  assert (Heq : getCachedResponse props2 context = getCachedResponse props1 context).
  { unfold getCachedResponse. rewrite Htag. reflexivity. }
  destruct (getCachedResponse props1 context) as [c|] eqn:Hc; [|discriminate Hhit].
  rewrite (fire_cache_hit props1 context c) by exact Hc.
  rewrite (fire_cache_hit props2 context c) by exact Heq.
  rewrite Hcb. reflexivity.
Qed.

Lemma cache_hit_depends_on_tag_only_witness :
  p_tag items_request = p_tag users_request
  /\ p_onSuccess items_request = p_onSuccess users_request
  /\ defined (getCachedResponse items_request store_with_T) = true
  /\ getConfig items_request <> getConfig users_request
  /\ fire items_request store_with_T (constructor items_request)
     = fire users_request store_with_T (constructor items_request).
Proof.
  repeat (split; [reflexivity|]).
  split; [intros H; discriminate H|].
  exact (cache_hit_depends_on_tag_only items_request users_request store_with_T
           (constructor items_request) eq_refl eq_refl eq_refl).
Defined.

(** ** The configuration handed to the transport *)

Lemma pruned_keys_sublist (fs : list (string * JsVal)) :
  map fst (List.filter defined_field fs) `sublist_of` map fst fs.
Proof.
  induction fs as [|[k v] fs IH]; [constructor|].
  cbn [List.filter map fst]. destruct (defined_field (k, v)).
  - cbn [map fst]. apply sublist_skip, IH.
  - apply sublist_cons, IH.
Qed.

Lemma assoc_absent (k : string) (fs : list (string * JsVal)) :
  k ∉ map fst fs -> assoc k fs = None.
Proof.
  induction fs as [|[k' v] fs IH]; [reflexivity|].
  cbn [map fst assoc]. rewrite not_elem_of_cons. intros [Hne Hk].
  destruct (String.eqb_spec k k') as [->|_]; [contradiction|]. exact (IH Hk).
Qed.

(** Reading a property of the pruned object gives what the object gave. *)
Lemma pruned_property (fs : list (string * JsVal)) (k : string) :
  NoDup (map fst fs) ->
  default VUndefined (assoc k (List.filter defined_field fs))
  = default VUndefined (assoc k fs).
Proof.
  induction fs as [|[k' v] fs IH]; [reflexivity|].
  cbn [map fst]. intros [Hk' Hnd]%NoDup_cons.
  cbn [List.filter assoc].
  destruct (String.eqb_spec k k') as [->|Hne].
  - destruct (defined_field (k', v)) eqn:Hd.
    + cbn [assoc]. rewrite String.eqb_refl. reflexivity.
    + rewrite assoc_absent.
      * destruct v; try discriminate Hd. reflexivity.
      * intros Hin. apply Hk'. exact (elem_of_sublist _ _ _ Hin (pruned_keys_sublist fs)).
  - destruct (defined_field (k', v)).
    + cbn [assoc]. destruct (String.eqb_spec k k'); [contradiction|]. exact (IH Hnd).
    + exact (IH Hnd).
Qed.

(** The keys that pruning keeps are those whose value is not [undefined]. *)
Lemma pruned_keys (fs : list (string * JsVal)) (k : string) :
  NoDup (map fst fs) ->
  k ∈ map fst (List.filter defined_field fs)
  <-> default VUndefined (assoc k fs) <> VUndefined.
Proof.
  induction fs as [|[k' v] fs IH].
  - intros _. cbn. split; [intros H; inversion H|intros H; contradiction].
  - cbn [map fst]. intros [Hk' Hnd]%NoDup_cons.
    cbn [List.filter assoc].
    destruct (String.eqb_spec k k') as [->|Hne].
    + destruct (defined_field (k', v)) eqn:Hd.
      * simpl. split; [intros _|intros _; left].
        intros Hv. rewrite Hv in Hd. discriminate Hd.
      * split.
        -- intros Hin. exfalso. apply Hk'.
           exact (elem_of_sublist _ _ _ Hin (pruned_keys_sublist fs)).
        -- intros Hv. exfalso. apply Hv. destruct v; try discriminate Hd. reflexivity.
    + rewrite <- (IH Hnd). destruct (defined_field (k', v)); [|reflexivity].
      cbn [map fst]. rewrite elem_of_cons. split; [intros [H|H]; [contradiction|exact H]|].
      intros H. right. exact H.
Qed.

Lemma config_keys_NoDup props : NoDup (Object_keys (getConfig props)).
Proof. apply (bool_decide_unpack _). vm_compute. exact I. Qed.

(** Extra X9: the configuration [fire()] hands to the transport on a cache
    miss is the configuration of the props without its undefined
    properties: every property reads as it does in the props, the keys
    present are exactly the whitelisted keys whose value is not
    [undefined], in the order of the whitelist and without repetition; so
    [cache], [defer] and the callbacks never reach the transport. *)
Theorem request_config_is_pruned props context st :
  getCachedResponse props context = None ->
  exists config,
    requests_made (events_of (fire props context st)) = [config]
    /\ (forall k, property config k = property (getConfig props) k)
    /\ (forall k, k ∈ Object_keys config <-> property (getConfig props) k <> VUndefined)
    /\ Object_keys config `sublist_of` Object_keys (getConfig props)
    /\ NoDup (Object_keys config).
Proof.
  intros Hmiss. exists (remove_undefined_keys (getConfig props)).
  split.
  { rewrite fire_cache_miss by exact Hmiss. unfold events_of. cbn [snd].
    destruct (p_onStart props); reflexivity. }
  pose proof (config_keys_NoDup props) as Hnd.
  destruct (config_keys props) as (fs & Hfs & _). rewrite Hfs in *.
  cbn [remove_undefined_keys property Object_keys] in *.
  change (List.filter (fun kv => negb (is_undefined (snd kv))) fs)
    with (List.filter defined_field fs).
  split; [intros k; apply pruned_property, Hnd|].
  split; [intros k; apply pruned_keys, Hnd|].
  split; [apply pruned_keys_sublist|].
  eapply sublist_NoDup; [exact Hnd|apply pruned_keys_sublist].
Qed.

Lemma request_config_is_pruned_witness :
  getCachedResponse sample_props no_store = None
  /\ requests_made (events_of (fire sample_props no_store (constructor sample_props)))
     = [VObj [("url", VStr "/items"); ("method", VStr "get"); ("tag", VStr "T")]%string].
Proof.
  split; [reflexivity|].
  destruct (request_config_is_pruned sample_props no_store (constructor sample_props)
              eq_refl) as (config & Hreq & _).
  reflexivity.
Defined.

(** Extra X10: removing the undefined properties changes nothing that
    [JSON.stringify] prints, so the text compared on update is the text of
    the configuration that is sent; and removing them twice is removing them
    once. *)
Theorem pruning_keeps_the_text (config : JsVal) :
  JSON_stringify (remove_undefined_keys config) = JSON_stringify config
  /\ remove_undefined_keys (remove_undefined_keys config) = remove_undefined_keys config.
Proof.
  destruct config as [| |b|n|s|items|fields|id]; try (split; reflexivity).
  cbn [remove_undefined_keys].
  change (List.filter (fun kv => negb (is_undefined (snd kv))))
    with (List.filter defined_field).
  split; [apply JSON_stringify_defined|].
  f_equal. induction fields as [|[k v] fields IH]; [reflexivity|].
  cbn [List.filter]. destruct (defined_field (k, v)) eqn:Hd; [|exact IH].
  cbn [List.filter]. rewrite Hd, IH. reflexivity.
Qed.

(** ** The lifecycle hooks *)

Lemma fire_status props context st :
  s_status (state_of (fire props context st)) <> INIT.
Proof.
  destruct (getCachedResponse props context) as [c|] eqn:Hc.
  - rewrite (fire_cache_hit _ _ c) by exact Hc. discriminate.
  - rewrite fire_cache_miss by exact Hc. discriminate.
Qed.

(** Extra X11: no operation leads back to INIT.  After [fire()], after the
    settlement of its transport call and after a whole invocation the status
    is not INIT; after a lifecycle hook it is not INIT unless the hook did
    nothing at all. *)
Theorem INIT_is_never_entered props context st :
  s_status (state_of (fire props context st)) <> INIT
  /\ (forall o, s_status (state_of (settle props context o st)) <> INIT)
  /\ (forall o, s_status (state_of (fire_invocation props context o st)) <> INIT)
  /\ (s_status (state_of (componentDidMount props context st)) <> INIT
      \/ componentDidMount props context st = no_op st)
  /\ (forall prevProps,
        s_status (state_of (componentDidUpdate props context prevProps st)) <> INIT
        \/ componentDidUpdate props context prevProps st = no_op st).
Proof.
  pose proof (fire_status props context st) as Hfire.
  assert (Hsettle : forall o st1, s_status (state_of (settle props context o st1)) <> INIT).
  { intros o st1.
    destruct (settle_shape props context o st1)
      as (c & pre & p & name & arg & -> & Hp & _).
    destruct Hp; discriminate. }
  split; [exact Hfire|]. split; [intros o; apply Hsettle|]. split.
  - intros o. destruct (getCachedResponse props context) as [c|] eqn:Hc.
    + rewrite (fire_invocation_hit _ _ c) by exact Hc. exact Hfire.
    + rewrite fire_invocation_miss by exact Hc. apply Hsettle.
  - split.
    + unfold componentDidMount. destruct (p_defer props); cbn [negb].
      * right. reflexivity.
      * left. exact Hfire.
    + intros prevProps. unfold componentDidUpdate.
      destruct (bool_decide _); [right; reflexivity|].
      destruct (p_defer props); cbn [negb]; [right; reflexivity|left; exact Hfire].
Qed.

(** Extra X12: a deferred request is never fired by the lifecycle: with
    [defer] set, mounting does nothing and an update does nothing, whatever
    the previous props were. *)
Theorem deferred_request_waits props context st :
  p_defer props = true ->
  componentDidMount props context st = no_op st
  /\ forall prevProps, componentDidUpdate props context prevProps st = no_op st.
Proof.
  intros Hd. unfold componentDidMount, componentDidUpdate. rewrite Hd. cbn [negb].
  split; [reflexivity|]. intros prevProps. destruct (bool_decide _); reflexivity.
Qed.

Lemma deferred_request_waits_witness :
  p_defer users_request = true
  /\ getConfig users_request <> getConfig items_request
  /\ componentDidUpdate users_request no_store items_request (constructor users_request)
     = no_op (constructor users_request).
Proof.
  split; [reflexivity|]. split; [intros H; discriminate H|].
  exact (proj2 (deferred_request_waits users_request no_store
                  (constructor users_request) eq_refl) items_request).
Defined.

(** ** Rendering *)

(** Extra X13: [render()] raises its invariant violation only for a child
    that is falsy and that React does not count as one child; a truthy child
    is handed to [React.Children.only] whatever React counts, so the check of
    the component never refuses several children; a falsy child that counts
    as one renders as [null].  The state is never touched. *)
Theorem render_cases (Children_count : JsVal -> Z)
    (Children_only : JsVal -> Completion JsVal) (children : JsVal) (st : State) :
  render Children_count Children_only children st =
  (if truthy children then Children_only children
   else if Children_count children =? 1 then Normal VNull
   else Throw (InvariantViolation
                 (FormatText "A <Request> may have only one child element")),
   st, []).
Proof.
  unfold render, bind, invariant, complete, ret, throw.
  destruct (truthy children); [reflexivity|]. cbn [orb].
  destruct (Children_count children =? 1); reflexivity.
Qed.
